(** * Traffic-camera feed: feed normalisation, map placement, camera cards

  A shallow embedding of the TypeScript sources of the dashboard:

  - [Js]          the fragment of JavaScript values and built-ins the sources use;
  - [Types]       [types.ts], the canonical [TrafficCamera] record;
  - [ArcGIS]      [services/arcgis.ts]: [findUrl], [findString], [mapFeature];
  - [Net] and the three fetchers: [services/api.ts] in its two copies
    (without and with the 10 s abort timer) and [fetchArcGISCameras];
  - [MapView]     the marker placement of [components/MapView.tsx], over
    [MapLibre], the positions a marker accepts;
  - [CameraCard]  [components/CameraCard.tsx] (viewport aware, image first) and
    [CameraCardPlain], the second copy of the component (no viewport tracking);
  - [VideoPlayer] [components/VideoPlayer.tsx], the choice of the engine and the
    listeners;
  - [App] and [AppVideoFeeds], the search filter, the feed key and the settings
    of the two copies of [App.tsx].

  Strings are [string], read as sequences of code units below 256; JSON objects
  are association lists in [Object.keys] order. *)

From Stdlib Require Import Bool List String Ascii Arith NArith ZArith Lia.
From Stdlib Require Import Permutation DecimalString.
Import ListNotations.
Open Scope bool_scope.
Open Scope string_scope.

(* ================================================================== *)
(** ** JavaScript values and built-ins *)

Module Js.

(** A Number that arrived in a JSON document is kept by the text that
    [Number.prototype.toString] renders for it; that text always has a first
    character.  [-0] and [0] share the rendering ["0"]. *)
Record number : Type := mkNumber { num_head : ascii; num_tail : string }.

Definition Number_toString (n : number) : string :=
  String (num_head n) (num_tail n).

(** What [JSON.parse] can produce. *)
#[warnings="-register-all"]
Inductive value : Type :=
| VNull
| VBool (b : bool)
| VNum (n : number)
| VStr (s : string)
| VArr (items : list value)
| VObj (fields : list (string * value)).

(** A plain object: own enumerable string keys in [Object.keys] order. *)
Definition object : Type := list (string * value).

Definition nonEmpty (s : string) : bool := negb (s =? "").

(** ToBoolean. *)
Definition truthy (v : value) : bool :=
  match v with
  | VNull => false
  | VBool b => b
  | VNum n => negb (Number_toString n =? "0") && negb (Number_toString n =? "NaN")
  | VStr s => nonEmpty s
  | VArr _ => true
  | VObj _ => true
  end.

(** [a || b] *)
Definition or_else (a b : value) : value := if truthy a then a else b.

(** [a || b] on two strings *)
Definition or_string (a b : string) : string := if nonEmpty a then a else b.

Definition lowerChar (c : ascii) : ascii :=
  let n := nat_of_ascii c in
  if (65 <=? n)%nat && (n <=? 90)%nat
     || (192 <=? n)%nat && (n <=? 222)%nat && negb (n =? 215)%nat
  then ascii_of_nat (n + 32) else c.

(** [String.prototype.toLowerCase] on code units below 256: the letters [A-Z]
    and the capital letters U+00C0 to U+00DE (U+00D7, the multiplication sign,
    is no letter) move up by 32, every other code unit stays. *)
Fixpoint toLowerCase (s : string) : string :=
  match s with
  | EmptyString => EmptyString
  | String c r => String (lowerChar c) (toLowerCase r)
  end.

(** [val.startsWith(p)] *)
Definition startsWith (p val : string) : bool := String.prefix p val.

(** [Object.keys(o)] *)
Definition keys (o : object) : list string := map fst o.

(** [o[k]] for an own property; [None] is [undefined]. *)
Fixpoint get (o : object) (k : string) : option value :=
  match o with
  | [] => None
  | (k', v) :: rest => if k' =? k then Some v else get rest k
  end.

(** ToString, as a template literal applies it. *)
Fixpoint toString (v : value) : string :=
  match v with
  | VNull => "null"
  | VBool true => "true"
  | VBool false => "false"
  | VNum n => Number_toString n
  | VStr s => s
  | VArr items =>
      String.concat ","
        (map (fun e => match e with VNull => "" | _ => toString e end) items)
  | VObj _ => "[object Object]"
  end.

(** *** Numbers produced by [parseFloat]

    The result is kept as the literal that was read: [FDecimal neg d e] is the
    Number nearest to [(-1)^neg * d * 10^e], which is an infinity when the
    literal is too large for a double. *)
Inductive float : Type :=
| FNaN
| FInfinity (negative : bool)
| FDecimal (negative : bool) (digits : N) (exp10 : Z).

Definition isNaN (x : float) : bool :=
  match x with FNaN => true | _ => false end.

(** Literals of magnitude [2^1024 - 2^970] and above round to an infinity. *)
Definition overflowBound : Z := (2 ^ 1024 - 2 ^ 970)%Z.

Definition roundsFinite (digits : N) (exp10 : Z) : bool :=
  if (0 <=? exp10)%Z
  then (Z.of_N digits * 10 ^ exp10 <? overflowBound)%Z
  else (Z.of_N digits <? overflowBound * 10 ^ (- exp10))%Z.

(** [Number.isFinite] *)
Definition isFinite (x : float) : bool :=
  match x with
  | FDecimal _ d e => roundsFinite d e
  | _ => false
  end.

(** White space and line terminators below 256: TAB, LF, VT, FF, CR, SPACE and
    the no-break space U+00A0. *)
Definition isWhiteSpace (c : ascii) : bool :=
  let n := N_of_ascii c in
  ((9 <=? n) && (n <=? 13) || (n =? 32) || (n =? 160))%N.

Fixpoint trimStart (s : string) : string :=
  match s with
  | String c r => if isWhiteSpace c then trimStart r else s
  | EmptyString => EmptyString
  end.

Definition isDigit (c : ascii) : bool :=
  let n := N_of_ascii c in ((48 <=? n) && (n <=? 57))%N.

Definition digitValue (c : ascii) : N := (N_of_ascii c - 48)%N.

(** The longest run of decimal digits at the head of [s], accumulated onto
    [acc]: its value, the number of digits read, and what follows. *)
Fixpoint scanDigits (s : string) (acc len : N) : N * N * string :=
  match s with
  | String c r =>
      if isDigit c then scanDigits r (10 * acc + digitValue c)%N (len + 1)%N
      else (acc, len, s)
  | EmptyString => (acc, len, s)
  end.

Definition unsignedExponent (s : string) : option N :=
  let '(v, n, _) := scanDigits s 0%N 0%N in
  if (n =? 0)%N then None else Some v.

(** ExponentPart, when one follows; otherwise no exponent is read. *)
Definition exponentPart (s : string) : Z :=
  match s with
  | String c r =>
      if (c =? "e")%char || (c =? "E")%char then
        match r with
        | String "+"%char r' =>
            match unsignedExponent r' with Some v => Z.of_N v | None => 0%Z end
        | String "-"%char r' =>
            match unsignedExponent r' with Some v => (- Z.of_N v)%Z | None => 0%Z end
        | _ =>
            match unsignedExponent r with Some v => Z.of_N v | None => 0%Z end
        end
      else 0%Z
  | EmptyString => 0%Z
  end.

(** The longest prefix that is a StrUnsignedDecimalLiteral. *)
Definition unsignedLiteral (negative : bool) (s : string) : float :=
  if String.prefix "Infinity" s then FInfinity negative
  else
    let '(whole, nWhole, r1) := scanDigits s 0%N 0%N in
    match r1 with
    | String "."%char r2 =>
        let '(mantissa, nFrac, r3) := scanDigits r2 whole 0%N in
        if (nWhole =? 0)%N && (nFrac =? 0)%N then FNaN
        else FDecimal negative mantissa (exponentPart r3 - Z.of_N nFrac)
    | _ =>
        if (nWhole =? 0)%N then FNaN
        else FDecimal negative whole (exponentPart r1)
    end.

(** [parseFloat(s)] *)
Definition parseFloat (s : string) : float :=
  match trimStart s with
  | String "+"%char r => unsignedLiteral false r
  | String "-"%char r => unsignedLiteral true r
  | t => unsignedLiteral false t
  end.

(** Decimal rendering of a non-negative integer, as a template literal
    renders [Date.now()] or [response.status]. *)
Definition decimal (n : N) : string := NilEmpty.string_of_uint (N.to_uint n).

End Js.

(* ================================================================== *)
(** ** types.ts *)

Module Types.
Import Js.

(** [{ url: string }].  The field is declared a string; the feeds put there
    whatever JSON value they carry, so the record keeps a [value]. *)
Record UrlRef : Type := mkUrl { url : value }.

Record Location : Type := mkLocation { latitude : string; longitude : string }.

Record TrafficCamera : Type := mkCamera {
  cameralabel : string;
  imageurl : UrlRef;
  video_url : option UrlRef;
  web_url : option UrlRef;
  x_coord : string;
  y_coord : string;
  location : option Location
}.

End Types.

(* ================================================================== *)
(** ** The network, as [fetch] shows it to an [async] function

    Instants are milliseconds after the call.  An [Exchange] says when (if
    ever) the promise of [fetch] would settle by itself and with what, and how
    much later (if ever) [response.json()] would settle.  A [Run] is what the
    caller of the [async] function observes. *)

Module Net.

Inductive Head : Type :=
| NetworkFailure
| Headers (ok : bool) (status : N) (statusText : string).

Inductive Body (A : Type) : Type :=
| Json (data : A)
| Malformed.
Arguments Json {A} data.
Arguments Malformed {A}.

Record Exchange (A : Type) : Type := mkExchange {
  head : option (N * Head);
  body : option (N * Body A)
}.
Arguments mkExchange {A} head body.
Arguments head {A} e.
Arguments body {A} e.

Inductive Failure : Type :=
| HttpError (message : string)
| AbortError
| NetworkError
| SyntaxError.

Inductive Outcome (A : Type) : Type :=
| Fulfilled (data : A)
| Rejected (e : Failure)
| Pending.
Arguments Fulfilled {A} data.
Arguments Rejected {A} e.
Arguments Pending {A}.

Record Run (A : Type) : Type := mkRun {
  outcome : Outcome A;
  settledAt : option N;
  abortedAt : option N      (* when [controller.abort()] ran, if it did *)
}.
Arguments mkRun {A} outcome settledAt abortedAt.
Arguments outcome {A} r.
Arguments settledAt {A} r.
Arguments abortedAt {A} r.

Definition fulfilled {A} (t : N) (data : A) : Run A :=
  mkRun (Fulfilled data) (Some t) None.

Definition rejected {A} (t : N) (e : Failure) : Run A :=
  mkRun (Rejected e) (Some t) None.

Definition pending {A} : Run A := mkRun Pending None None.

(** The timer callback [() => controller.abort()] ran at [t]: the pending
    operation on the signal rejects with an AbortError. *)
Definition timedOut {A} (t : N) : Run A :=
  mkRun (Rejected AbortError) (Some t) (Some t).

Definition failed {A} (r : Run A) : bool :=
  match outcome r with Rejected _ => true | _ => false end.

End Net.

(* ================================================================== *)
(** ** services/arcgis.ts *)

Module ArcGIS.
Import Js Types Net.

Record Geometry : Type := mkGeometry { coordinates : list number }.

Inductive FeatureId : Type :=
| IdNumber (n : number)
| IdString (s : string).

Record ArcGISFeature : Type := mkFeature {
  id : option FeatureId;
  geometry : option Geometry;
  properties : object
}.

(** [Object.keys(props).find((k) => k.toLowerCase() === candidate.toLowerCase())] *)
Definition findKey (props : object) (candidate : string) : option string :=
  find (fun k => toLowerCase k =? toLowerCase candidate) (keys props).

(** One turn of the loop of [findUrl]: [Some val] when the turn returns. *)
Definition urlAt (props : object) (candidate : string) : option string :=
  match findKey props candidate with
  | Some key =>
      if nonEmpty key then
        match get props key with
        | Some (VStr val) => if startsWith "http" val then Some val else None
        | _ => None
        end
      else None
  | None => None
  end.

Fixpoint findUrl (props : object) (candidates : list string) : string :=
  match candidates with
  | [] => ""
  | candidate :: rest =>
      match urlAt props candidate with
      | Some val => val
      | None => findUrl props rest
      end
  end.

(** One turn of the loop of [findString]. *)
Definition stringAt (props : object) (candidate : string) : option string :=
  match findKey props candidate with
  | Some key =>
      if nonEmpty key then
        match get props key with
        | Some (VStr val) => if nonEmpty val then Some val else None
        | _ => None
        end
      else None
  | None => None
  end.

Fixpoint findString (props : object) (candidates : list string) : string :=
  match candidates with
  | [] => ""
  | candidate :: rest =>
      match stringAt props candidate with
      | Some val => val
      | None => findString props rest
      end
  end.

(** The arrow function of the nested fallback:
    [const nested = props[key];
     if (nested && typeof nested === 'object') return nested.url ?? '';
     return '';] *)
Definition nestedUrl (props : object) (key : string) : value :=
  match get props key with
  | Some (VObj fields) =>
      match get fields "url" with
      | None | Some VNull => VStr ""
      | Some u => u
      end
  | Some (VArr _) => VStr ""
  | _ => VStr ""
  end.

Definition lngCandidates : list string := ["longitude"; "lon"; "long"; "x"].
Definition latCandidates : list string := ["latitude"; "lat"; "y"].
Definition labelCandidates : list string :=
  ["cameralabel"; "camera_label"; "label"; "name"; "description";
   "camera_name"; "title"].
Definition imageCandidates : list string :=
  ["imageurl"; "image_url"; "imagelink"; "photo_url"; "snapshot_url"].
Definition videoCandidates : list string :=
  ["video_url"; "videourl"; "stream_url"; "hls_url"; "hlsurl"].
Definition webCandidates : list string := ["web_url"; "weburl"; "link"; "url"].
Definition xCandidates : list string := ["x_coord"; "xcoord"; "x"].
Definition yCandidates : list string := ["y_coord"; "ycoord"; "y"].

(** [geometry?.coordinates[i]?.toString()] *)
Definition coordinateText (g : option Geometry) (i : nat) : option string :=
  match g with
  | Some geo => option_map Number_toString (nth_error (coordinates geo) i)
  | None => None
  end.

(** [a ?? b] with [b] a string *)
Definition orDefault (a : option string) (b : string) : string :=
  match a with Some s => s | None => b end.

Definition resolveLng (f : ArcGISFeature) : string :=
  orDefault (coordinateText (geometry f) 0) (findString (properties f) lngCandidates).

Definition resolveLat (f : ArcGISFeature) : string :=
  orDefault (coordinateText (geometry f) 1) (findString (properties f) latCandidates).

(** [`Camera ${feature.id ?? ''}`] *)
Definition defaultLabel (f : ArcGISFeature) : string :=
  "Camera " ++ match id f with
               | Some (IdNumber n) => Number_toString n
               | Some (IdString s) => s
               | None => ""
               end.

Definition resolveLabel (f : ArcGISFeature) : string :=
  or_string (findString (properties f) labelCandidates) (defaultLabel f).

Definition rawImageUrl (props : object) : value :=
  or_else (VStr (findUrl props imageCandidates)) (nestedUrl props "imageurl").

Definition rawVideoUrl (props : object) : value :=
  or_else (VStr (findUrl props videoCandidates)) (nestedUrl props "video_url").

Definition rawWebUrl (props : object) : value :=
  or_else (VStr (findUrl props webCandidates)) (nestedUrl props "web_url").

(** [raw ? { url: raw } : undefined] *)
Definition optionalUrl (raw : value) : option UrlRef :=
  if truthy raw then Some (mkUrl raw) else None.

Definition mapFeature (feature : ArcGISFeature) : option TrafficCamera :=
  let props := properties feature in
  let lng := resolveLng feature in
  let lat := resolveLat feature in
  if negb (nonEmpty lat) || negb (nonEmpty lng) then None
  else
    let label := resolveLabel feature in
    let image := rawImageUrl props in
    if negb (truthy image) then None
    else
      let xCoord := or_string (findString props xCandidates) lng in
      let yCoord := or_string (findString props yCandidates) lat in
      Some {| cameralabel := label;
              imageurl := mkUrl image;
              video_url := optionalUrl (rawVideoUrl props);
              web_url := optionalUrl (rawWebUrl props);
              x_coord := xCoord;
              y_coord := yCoord;
              location := Some (mkLocation lat lng) |}.

(** [.filter((c): c is TrafficCamera => c !== null)] *)
Fixpoint dropNulls (l : list (option TrafficCamera)) : list TrafficCamera :=
  match l with
  | [] => []
  | Some c :: rest => c :: dropNulls rest
  | None :: rest => dropNulls rest
  end.

(** [data.features.map(mapFeature).filter(...)], the value [fetchArcGISCameras]
    resolves to. *)
Definition camerasOf (features : list ArcGISFeature) : list TrafficCamera :=
  dropNulls (map mapFeature features).

Record ArcGISGeoJSON : Type := mkGeoJSON { features : list ArcGISFeature }.

Definition ARCGIS_TIMEOUT_MS : N := 15000.

(** [fetchArcGISCameras]: the body is awaited inside [try], so the timer is
    still armed while [response.json()] is read. *)
Definition fetchArcGISCameras (x : Exchange ArcGISGeoJSON) : Run (list TrafficCamera) :=
  match head x with
  | Some (t, h) =>
      if (t <? ARCGIS_TIMEOUT_MS)%N then
        match h with
        | NetworkFailure => rejected t NetworkError
        | Headers ok status statusText =>
            if negb ok then
              rejected t (HttpError ("ArcGIS API error: " ++ decimal status
                                       ++ " " ++ statusText))
            else
              match body x with
              | Some (d, b) =>
                  if (t + d <? ARCGIS_TIMEOUT_MS)%N then
                    match b with
                    | Json data => fulfilled (t + d) (camerasOf (features data))
                    | Malformed => rejected (t + d) SyntaxError
                    end
                  else timedOut ARCGIS_TIMEOUT_MS
              | None => timedOut ARCGIS_TIMEOUT_MS
              end
        end
      else timedOut ARCGIS_TIMEOUT_MS
  | None => timedOut ARCGIS_TIMEOUT_MS
  end.

End ArcGIS.

(* ================================================================== *)
(** ** services/api.ts, the copy without a timer *)

Module SocrataApi.
Import Js Types Net.

(** [return response.json()]: the promise of the body is handed to the caller. *)
Definition readBody {A} (t : N) (b : option (N * Body A)) : Run A :=
  match b with
  | Some (d, Json data) => fulfilled (t + d) data
  | Some (d, Malformed) => rejected (t + d) SyntaxError
  | None => pending
  end.

Definition fetchCameras (x : Exchange (list TrafficCamera)) : Run (list TrafficCamera) :=
  match head x with
  | Some (t, NetworkFailure) => rejected t NetworkError
  | Some (t, Headers ok _ _) =>
      if negb ok then rejected t (HttpError "Failed to fetch cameras")
      else readBody t (body x)
  | None => pending
  end.

End SocrataApi.

(* ================================================================== *)
(** ** services/api.ts, the copy with [FETCH_TIMEOUT_MS] *)

Module SocrataApiTimeout.
Import Js Types Net.

Definition FETCH_TIMEOUT_MS : N := 10000.

(** [try { ...; return response.json(); } finally { clearTimeout(timeoutId); }]:
    the [return] is not awaited, so [finally] disarms the timer at the instant
    the headers arrive and the body is read with no timer behind it. *)
Definition fetchCameras (x : Exchange (list TrafficCamera)) : Run (list TrafficCamera) :=
  match head x with
  | Some (t, h) =>
      if (t <? FETCH_TIMEOUT_MS)%N then
        match h with
        | NetworkFailure => rejected t NetworkError
        | Headers ok status statusText =>
            if negb ok then
              rejected t (HttpError ("Failed to fetch cameras: " ++ decimal status
                                       ++ " " ++ statusText))
            else SocrataApi.readBody t (body x)
        end
      else timedOut FETCH_TIMEOUT_MS
  | None => timedOut FETCH_TIMEOUT_MS
  end.

End SocrataApiTimeout.

(* ================================================================== *)
(** ** maplibre-gl: the [LngLat] a marker is given

    [setLngLat] converts the pair to a [LngLat], whose constructor throws
    "Invalid LngLat object" on a NaN and "Invalid LngLat latitude value" when
    the latitude is above 90 or below -90. *)

Module MapLibre.
Import Js.

(** The Number nearest to [digits * 10^exp10] is above 90: the literal lies
    above [90 + 2^-47], half a unit in the last place above 90 (a tie goes to
    90). *)
Definition above90 (digits : N) (exp10 : Z) : bool :=
  if (0 <=? exp10)%Z
  then (90 * 2 ^ 47 + 1 <? Z.of_N digits * 10 ^ exp10 * 2 ^ 47)%Z
  else ((90 * 2 ^ 47 + 1) * 10 ^ (- exp10) <? Z.of_N digits * 2 ^ 47)%Z.

(** [lat > 90 || lat < -90] *)
Definition latitudeOutOfRange (lat : float) : bool :=
  match lat with
  | FNaN => false
  | FInfinity _ => true
  | FDecimal _ d e => above90 d e
  end.

(** [new LngLat(lng, lat)]; [None] is the exception. *)
Definition LngLat (lng lat : float) : option (float * float) :=
  if isNaN lng || isNaN lat then None
  else if latitudeOutOfRange lat then None
  else Some (lng, lat).

(** The literal lies on the globe, from -180 to 180. *)
Definition onGlobe (lng : float) : bool :=
  match lng with
  | FDecimal _ d e =>
      if (0 <=? e)%Z then (Z.of_N d * 10 ^ e <=? 180)%Z
      else (Z.of_N d <=? 180 * 10 ^ (- e))%Z
  | _ => false
  end.

(** [new Marker(...).setLngLat([lng, lat]).addTo(map)].  [setLngLat] throws
    what [LngLat] throws.  [addTo] wraps the longitude towards the centre of
    the map in steps of 360 and projects the position; it is followed here
    for the longitudes of the globe only, and [Beyond] stands for every
    other longitude, about which nothing is said. *)
Inductive Placement : Type :=
| Placed (position : float * float)
| Throws
| Beyond.

Definition addMarker (lng lat : float) : Placement :=
  match LngLat lng lat with
  | None => Throws
  | Some position => if onGlobe lng then Placed position else Beyond
  end.

End MapLibre.

(* ================================================================== *)
(** ** components/MapView.tsx: the [load] handler *)

Module MapView.
Import Js Types.

Record Marker : Type := mkMarker {
  lngLat : float * float;       (* [setLngLat([lng, lat])] *)
  camera : TrafficCamera
}.

(** The predicate of [cameras.filter(...)]. *)
Definition isValid (c : TrafficCamera) : bool :=
  match location c with
  | Some loc =>
      nonEmpty (latitude loc) && nonEmpty (longitude loc)
      && negb (isNaN (parseFloat (latitude loc)))
      && negb (isNaN (parseFloat (longitude loc)))
  | None => false
  end.

Definition validCameras (cameras : list TrafficCamera) : list TrafficCamera :=
  filter isValid cameras.

(** How the [load] handler ends: it returns, it is left by an exception, or
    it reaches a longitude off the globe, where it is not followed. *)
Inductive Ending : Type :=
| Returned
| Threw
| NotFollowed.

(** The body of [validCameras.forEach]: the marker that is on the map and
    pushed onto [markersRef.current], or how the handler ends there.  The
    exception is the TypeError of reading [camera.location.latitude] off a
    missing location, or the one [setLngLat] throws. *)
Definition placeMarker (c : TrafficCamera) : Marker + Ending :=
  match location c with
  | Some loc =>
      let lat := parseFloat (latitude loc) in
      let lng := parseFloat (longitude loc) in
      match MapLibre.addMarker lng lat with
      | MapLibre.Placed position => inl (mkMarker position c)
      | MapLibre.Throws => inr Threw
      | MapLibre.Beyond => inr NotFollowed
      end
  | None => inr Threw
  end.

(** The end of the handler, and the markers on the map by then. *)
Record LoadResult : Type := mkLoadResult {
  ending : Ending;
  markers : list Marker
}.

(** [validCameras.forEach(...)]: an exception leaves the loop. *)
Fixpoint forEachMarker (valid : list TrafficCamera) : LoadResult :=
  match valid with
  | [] => mkLoadResult Returned []
  | c :: rest =>
      match placeMarker c with
      | inl m =>
          let r := forEachMarker rest in mkLoadResult (ending r) (m :: markers r)
      | inr e => mkLoadResult e []
      end
  end.

Definition onLoad (cameras : list TrafficCamera) : LoadResult :=
  forEachMarker (validCameras cameras).

End MapView.

(* ================================================================== *)
(** ** components/CameraCard.tsx

    The component is a transition system over its [useState] cells.  An
    [Event] is a callback the rendered card (or the browser on its behalf)
    can invoke; it is [enabled] when the element or timer that carries the
    callback exists in the current render.  After the handler has run, the
    effects run until the render is stable ([settle]). *)

Module CameraCard.
Import Js Types.

Record Props : Type := mkProps {
  camera : TrafficCamera;
  refreshInterval : option N       (* ms; [None] takes the default *)
}.

Definition DEFAULT_REFRESH_MS : N := 30000.

Definition refreshIntervalOf (p : Props) : N :=
  match refreshInterval p with Some ms => ms | None => DEFAULT_REFRESH_MS end.

Record State : Type := mkState {
  isInView : bool;
  timestamp : N;
  isImgLoading : bool;
  hasImgError : bool;
  isVideoPlaying : bool;
  interval : option N              (* period of the armed [setInterval], if any *)
}.

(** [camera.video_url?.url] *)
Definition videoUrl (p : Props) : option value :=
  option_map url (video_url (camera p)).

(** [videoUrl] in a boolean position *)
Definition hasVideoUrl (p : Props) : bool :=
  match videoUrl p with Some u => truthy u | None => false end.

(** [`${camera.imageurl.url}?t=${timestamp}`] *)
Definition imageUrl (p : Props) (s : State) : string :=
  toString (url (imageurl (camera p))) ++ "?t=" ++ decimal (timestamp s).

Inductive Media : Type :=
| VideoPlayer (src : option value) (poster : string)
| SignalLost
| Img (src : string).

Record View : Type := mkView {
  media : Media;
  playButton : bool;
  stopButton : bool
}.

Definition playerMounted (p : Props) (s : State) : bool :=
  isVideoPlaying s && hasVideoUrl p && isInView s.

Definition render (p : Props) (s : State) : View :=
  {| media := if playerMounted p s then VideoPlayer (videoUrl p) (imageUrl p s)
              else if hasImgError s then SignalLost
              else Img (imageUrl p s);
     playButton := hasVideoUrl p && negb (isVideoPlaying s);
     stopButton := isVideoPlaying s |}.

Inductive Event : Type :=
| Intersect (isIntersecting : bool)   (* the IntersectionObserver callback *)
| IntervalFired (now : N)             (* the [setInterval] callback *)
| PlayClicked
| StopClicked
| PlayerError                         (* [handleVideoError] *)
| PlayerLoad                          (* [handleVideoLoad] *)
| ImgLoad
| ImgError.

Definition enabled (p : Props) (s : State) (e : Event) : bool :=
  match e with
  | Intersect _ => true
  | IntervalFired _ => match interval s with Some _ => true | None => false end
  | PlayClicked => playButton (render p s)
  | StopClicked => stopButton (render p s)
  | PlayerError | PlayerLoad =>
      match media (render p s) with VideoPlayer _ _ => true | _ => false end
  | ImgLoad | ImgError =>
      match media (render p s) with Img _ => true | _ => false end
  end.

Definition setIsInView (b : bool) (s : State) : State :=
  mkState b (timestamp s) (isImgLoading s) (hasImgError s) (isVideoPlaying s) (interval s).
Definition setTimestamp (t : N) (s : State) : State :=
  mkState (isInView s) t (isImgLoading s) (hasImgError s) (isVideoPlaying s) (interval s).
Definition setIsImgLoading (b : bool) (s : State) : State :=
  mkState (isInView s) (timestamp s) b (hasImgError s) (isVideoPlaying s) (interval s).
Definition setHasImgError (b : bool) (s : State) : State :=
  mkState (isInView s) (timestamp s) (isImgLoading s) b (isVideoPlaying s) (interval s).
Definition setIsVideoPlaying (b : bool) (s : State) : State :=
  mkState (isInView s) (timestamp s) (isImgLoading s) (hasImgError s) b (interval s).
Definition setInterval (i : option N) (s : State) : State :=
  mkState (isInView s) (timestamp s) (isImgLoading s) (hasImgError s) (isVideoPlaying s) i.

Definition handle (e : Event) (s : State) : State :=
  match e with
  | Intersect b => setIsInView b s
  | IntervalFired now => setIsImgLoading true (setTimestamp now s)
  | PlayClicked => setIsVideoPlaying true s
  | StopClicked => setIsVideoPlaying false s
  | PlayerError => setIsImgLoading true (setIsVideoPlaying false s)
  | PlayerLoad => setIsImgLoading false s
  | ImgLoad => setHasImgError false (setIsImgLoading false s)
  | ImgError => setHasImgError true (setIsImgLoading false s)
  end.

(** [if (!isInView && isVideoPlaying) setIsVideoPlaying(false)] *)
Definition autoPauseEffect (s : State) : State :=
  if negb (isInView s) && isVideoPlaying s then setIsVideoPlaying false s else s.

(** [if (isVideoPlaying) return; const id = setInterval(..., refreshInterval);
     return () => clearInterval(id)] *)
Definition refreshEffect (p : Props) (s : State) : State :=
  setInterval (if isVideoPlaying s then None else Some (refreshIntervalOf p)) s.

Definition settle (p : Props) (s : State) : State :=
  refreshEffect p (autoPauseEffect s).

(** First render at [Date.now() = now], then the effects. *)
Definition mount (p : Props) (now : N) : State :=
  settle p {| isInView := false; timestamp := now; isImgLoading := true;
              hasImgError := false; isVideoPlaying := false; interval := None |}.

Definition step (p : Props) (s : State) (e : Event) : option State :=
  if enabled p s e then Some (settle p (handle e s)) else None.

Fixpoint run (p : Props) (s : State) (events : list Event) : option State :=
  match events with
  | [] => Some s
  | e :: rest =>
      match step p s e with
      | Some s' => run p s' rest
      | None => None
      end
  end.

(** A state the card can be in, some events after mounting. *)
Definition reachable (p : Props) (s : State) : Prop :=
  exists now events, run p (mount p now) events = Some s.

End CameraCard.

(* ================================================================== *)
(** ** The second copy of the CameraCard component (no viewport tracking) *)

Module CameraCardPlain.
Import Js Types.

Definition Props : Type := CameraCard.Props.
Definition camera := CameraCard.camera.
Definition refreshIntervalOf := CameraCard.refreshIntervalOf.
Definition videoUrl := CameraCard.videoUrl.
Definition hasVideoUrl := CameraCard.hasVideoUrl.

Record State : Type := mkState {
  timestamp : N;
  isLoading : bool;
  hasError : bool;
  isVideoPlaying : bool;
  interval : option N
}.

Definition imageUrl (p : Props) (s : State) : string :=
  toString (url (imageurl (camera p))) ++ "?t=" ++ decimal (timestamp s).

Record View : Type := mkView {
  media : CameraCard.Media;
  playButton : bool
}.

Definition render (p : Props) (s : State) : View :=
  {| media := if hasError s && negb (isVideoPlaying s) then CameraCard.SignalLost
              else if isVideoPlaying s && hasVideoUrl p
                   then CameraCard.VideoPlayer (videoUrl p) (imageUrl p s)
              else CameraCard.Img (imageUrl p s);
     playButton := hasVideoUrl p && negb (isVideoPlaying s) |}.

Inductive Event : Type :=
| IntervalFired (now : N)
| PlayClicked
| PlayerError
| PlayerLoad
| ImgLoad
| ImgError.

Definition enabled (p : Props) (s : State) (e : Event) : bool :=
  match e with
  | IntervalFired _ => match interval s with Some _ => true | None => false end
  | PlayClicked => playButton (render p s)
  | PlayerError | PlayerLoad =>
      match media (render p s) with CameraCard.VideoPlayer _ _ => true | _ => false end
  | ImgLoad | ImgError =>
      match media (render p s) with CameraCard.Img _ => true | _ => false end
  end.

Definition handle (e : Event) (s : State) : State :=
  match e with
  | IntervalFired now => mkState now true (hasError s) (isVideoPlaying s) (interval s)
  | PlayClicked => mkState (timestamp s) (isLoading s) (hasError s) true (interval s)
  | PlayerError => mkState (timestamp s) true (hasError s) false (interval s)
  | PlayerLoad => mkState (timestamp s) false false (isVideoPlaying s) (interval s)
  | ImgLoad => mkState (timestamp s) false false (isVideoPlaying s) (interval s)
  | ImgError => mkState (timestamp s) false true (isVideoPlaying s) (interval s)
  end.

Definition refreshEffect (p : Props) (s : State) : State :=
  mkState (timestamp s) (isLoading s) (hasError s) (isVideoPlaying s)
          (if isVideoPlaying s then None else Some (refreshIntervalOf p)).

(** [useState(!!camera.video_url?.url)] *)
Definition mount (p : Props) (now : N) : State :=
  refreshEffect p {| timestamp := now; isLoading := true; hasError := false;
                     isVideoPlaying := hasVideoUrl p; interval := None |}.

Definition step (p : Props) (s : State) (e : Event) : option State :=
  if enabled p s e then Some (refreshEffect p (handle e s)) else None.

Fixpoint run (p : Props) (s : State) (events : list Event) : option State :=
  match events with
  | [] => Some s
  | e :: rest =>
      match step p s e with
      | Some s' => run p s' rest
      | None => None
      end
  end.

Definition reachable (p : Props) (s : State) : Prop :=
  exists now events, run p (mount p now) events = Some s.

End CameraCardPlain.

(* ================================================================== *)
(** ** Two more string built-ins *)

Module JsText.
Import Js.

(** [s.includes(q)] *)
Fixpoint includes (q s : string) : bool :=
  String.prefix q s
  || match s with
     | String _ r => includes q r
     | EmptyString => false
     end.

(** [s.trimEnd()] *)
Fixpoint trimEnd (s : string) : string :=
  match s with
  | EmptyString => EmptyString
  | String c r =>
      let r' := trimEnd r in
      if isWhiteSpace c && (r' =? "") then EmptyString else String c r'
  end.

(** [s.trim()] *)
Definition trim (s : string) : string := trimEnd (trimStart s).

End JsText.

(* ================================================================== *)
(** ** components/VideoPlayer.tsx

    One run of the effect for a given [url]: the engine is chosen, the
    listeners are attached, and every listener call updates the two state
    cells and emits the calls it makes ([Action]). *)

Module VideoPlayer.
Import Js JsText.

(** What the browser answers to [Hls.isSupported()] and to
    [video.canPlayType('application/vnd.apple.mpegurl')]. *)
Record Browser : Type := mkBrowser { hlsSupported : bool; canPlayHls : bool }.

Record Props : Type := mkProps {
  url : string;
  autoPlay : option bool            (* [None] takes the default, [true] *)
}.

Definition autoPlayOf (p : Props) : bool :=
  match autoPlay p with Some b => b | None => true end.

Inductive Engine : Type := HlsJs | Native | Unsupported.

Definition isM3u8 (p : Props) : bool := includes ".m3u8" (url p).

Definition engineFor (b : Browser) (p : Props) : Engine :=
  if hlsSupported b && isM3u8 p then HlsJs
  else if canPlayHls b || negb (isM3u8 p) then Native
  else Unsupported.

(** [Hls.ErrorTypes] *)
Inductive ErrorType : Type :=
| NETWORK_ERROR | MEDIA_ERROR | KEY_SYSTEM_ERROR | MUX_ERROR | OTHER_ERROR.

Inductive Event : Type :=
| ManifestParsed                              (* [Hls.Events.MANIFEST_PARSED] *)
| HlsError (fatal : bool) (type : ErrorType)  (* [Hls.Events.ERROR] *)
| LoadedMetadata                              (* the element's [loadedmetadata] *)
| ElementError.                               (* the element's [error] *)

Inductive Action : Type :=
| LoadSource | AttachMedia | SetSrc
| CallOnLoad | CallOnError
| Play | StartLoad | RecoverMediaError | DestroyHls.

Record State : Type := mkState {
  isLoading : bool;
  hasError : bool;
  engine : Engine;
  hlsAlive : bool                   (* an [Hls] instance exists and is not destroyed *)
}.

Definition mount (b : Browser) (p : Props) : State * list Action :=
  match engineFor b p with
  | HlsJs => (mkState true false HlsJs true, [LoadSource; AttachMedia])
  | Native => (mkState true false Native false, [SetSrc])
  | Unsupported => (mkState false true Unsupported false, [CallOnError])
  end.

(** [handleCanPlay] *)
Definition handleCanPlay (p : Props) (s : State) : State * list Action :=
  (mkState false (hasError s) (engine s) (hlsAlive s),
   CallOnLoad :: if autoPlayOf p then [Play] else []).

(** [handleError] *)
Definition handleError (s : State) : State * list Action :=
  (mkState false true (engine s) (hlsAlive s), [CallOnError]).

Definition enabled (s : State) (e : Event) : bool :=
  match e, engine s with
  | (ManifestParsed | HlsError _ _), HlsJs => hlsAlive s
  | (LoadedMetadata | ElementError), Native => true
  | _, _ => false
  end.

Definition handle (p : Props) (s : State) (e : Event) : State * list Action :=
  match e with
  | ManifestParsed => handleCanPlay p s
  | HlsError fatal type =>
      if fatal then
        match type with
        | NETWORK_ERROR => (s, [StartLoad])
        | MEDIA_ERROR => (s, [RecoverMediaError])
        | _ =>
            let '(s', acts) := handleError s in
            (mkState (isLoading s') (hasError s') (engine s') false,
             (acts ++ [DestroyHls])%list)
        end
      else (s, [])
  | LoadedMetadata => handleCanPlay p s
  | ElementError => handleError s
  end.

Definition step (p : Props) (s : State) (e : Event) : option (State * list Action) :=
  if enabled s e then Some (handle p s e) else None.

(** The state after the events, and every call made on the way. *)
Fixpoint run (p : Props) (s : State) (events : list Event)
  : option (State * list Action) :=
  match events with
  | [] => Some (s, [])
  | e :: rest =>
      match step p s e with
      | Some (s1, acts1) =>
          match run p s1 rest with
          | Some (s2, acts2) => Some (s2, (acts1 ++ acts2)%list)
          | None => None
          end
      | None => None
      end
  end.

(** What the component renders over the [video] element. *)
Inductive Overlay : Type := Spinner | StreamUnavailable | NoOverlay.

Definition overlay (s : State) : Overlay :=
  if hasError s then StreamUnavailable
  else if isLoading s then Spinner
  else NoOverlay.

End VideoPlayer.

(* ================================================================== *)
(** ** App.tsx, the copy with the source switch and the map *)

Module App.
Import Js JsText Types.

Inductive ViewMode : Type := grid | map.
Inductive DataSource : Type := sdot | arcgis.

Definition sourceText (d : DataSource) : string :=
  match d with sdot => "sdot" | arcgis => "arcgis" end.

(** Exported by services/arcgis.ts. *)
Definition ARCGIS_FEATURE_SERVICE_URL : string :=
  "https://services.arcgis.com/ZOyb2t4B0UYuYNYH/arcgis/rest/services/SDOT_TrafficCameras/FeatureServer/0".

Record State : Type := mkState {
  view : ViewMode;
  source : DataSource;
  arcgisUrl : string;
  pendingUrl : string;
  showSettings : bool;
  searchQuery : string
}.

Definition initial : State :=
  mkState grid sdot ARCGIS_FEATURE_SERVICE_URL ARCGIS_FEATURE_SERVICE_URL false "".

(** [`cameras-${source}-${arcgisUrl}`] *)
Definition swrKey (s : State) : string :=
  "cameras-" ++ sourceText (source s) ++ "-" ++ arcgisUrl s.

(** The callbacks of the header, of the settings panel and of the search box. *)
Inductive Event : Type :=
| SetView (v : ViewMode)
| ToggleSettings
| ChooseSdot
| EditPendingUrl (text : string)
| ApplyArcGISUrl
| EditSearch (text : string)
| ClearSearch.

Definition handle (e : Event) (s : State) : State :=
  match e with
  | SetView v =>
      mkState v (source s) (arcgisUrl s) (pendingUrl s) (showSettings s) (searchQuery s)
  | ToggleSettings =>
      mkState (view s) (source s) (arcgisUrl s) (pendingUrl s)
              (negb (showSettings s)) (searchQuery s)
  | ChooseSdot =>
      mkState (view s) sdot (arcgisUrl s) (pendingUrl s) false (searchQuery s)
  | EditPendingUrl text =>
      mkState (view s) (source s) (arcgisUrl s) text (showSettings s) (searchQuery s)
  | ApplyArcGISUrl =>
      mkState (view s) arcgis (trim (pendingUrl s)) (pendingUrl s) false (searchQuery s)
  | EditSearch text =>
      mkState (view s) (source s) (arcgisUrl s) (pendingUrl s) (showSettings s) text
  | ClearSearch =>
      mkState (view s) (source s) (arcgisUrl s) (pendingUrl s) (showSettings s) ""
  end.

(** The predicate of [cameras?.filter(...)]. *)
Definition matchesQuery (query : string) (camera : TrafficCamera) : bool :=
  includes (toLowerCase query) (toLowerCase (cameralabel camera))
  && truthy (url (imageurl camera)).

Definition filteredCameras (cameras : list TrafficCamera) (deferredQuery : string)
  : list TrafficCamera :=
  filter (matchesQuery deferredQuery) cameras.

(** [c.video_url?.url] in a boolean position *)
Definition hasVideo (c : TrafficCamera) : bool :=
  match video_url c with Some u => truthy (url u) | None => false end.

(** [cameras?.filter((c) => c.video_url?.url).length ?? 0] *)
Definition withVideo (cameras : list TrafficCamera) : nat :=
  List.length (filter hasVideo cameras).

(** [<CameraCard key={camera.imageurl.url} camera={camera} />] *)
Definition cardProps (c : TrafficCamera) : CameraCard.Props :=
  CameraCard.mkProps c None.

End App.

(* ================================================================== *)
(** ** App.tsx, the copy for the video feeds *)

Module AppVideoFeeds.
Import Js JsText Types.

Definition matchesQuery (query : string) (camera : TrafficCamera) : bool :=
  includes (toLowerCase query) (toLowerCase (cameralabel camera))
  && truthy (url (imageurl camera))
  && App.hasVideo camera.

Definition filteredCameras (cameras : list TrafficCamera) (deferredQuery : string)
  : list TrafficCamera :=
  filter (matchesQuery deferredQuery) cameras.

End AppVideoFeeds.

(* ================================================================== *)
(** ** Vocabulary of the statements about the ArcGIS normaliser *)

Module ArcGISSpec.
Import Js Types Net ArcGIS.


Definition hasSnapshot (c : TrafficCamera) : bool := truthy (url (imageurl c)).


(** The geometry is what the interface declares: [null], or a point that
    carries (at least) the two coordinates [[lng, lat]]. *)
Definition declaredGeometry (f : ArcGISFeature) : bool :=
  match geometry f with
  | Some g => (2 <=? List.length (coordinates g))%nat
  | None => true
  end.

(** The geometry path gives both a longitude and a latitude. *)
Definition geometryResolves (f : ArcGISFeature) : bool :=
  match geometry f with
  | Some g => (2 <=? List.length (coordinates g))%nat
  | None => false
  end.

(** The property scan gives both a longitude and a latitude. *)
Definition propertiesResolve (f : ArcGISFeature) : bool :=
  nonEmpty (findString (properties f) lngCandidates)
  && nonEmpty (findString (properties f) latCandidates).

(** No two keys of the object are equal up to letter case. *)
Definition caseDistinct (props : object) : Prop :=
  NoDup (map toLowerCase (keys props)).

End ArcGISSpec.

(* ================================================================== *)
(** ** Vocabulary of the statements about the fetchers and the map *)

Module NetSpec.
Import Js Types Net.

(** A response arrived and its status is not a success. *)
Definition notSuccessful {A} (x : Exchange A) : bool :=
  match head x with
  | Some (_, Headers ok _ _) => negb ok
  | _ => false
  end.

(** The request is not over [limit] ms after the call: no answer yet, or a
    successful answer whose body has not been read to its end. *)
Definition exceeds {A} (limit : N) (x : Exchange A) : bool :=
  match head x with
  | None => true
  | Some (t, NetworkFailure) => (limit <=? t)%N
  | Some (t, Headers ok _ _) =>
      (limit <=? t)%N
      || ok && match body x with
               | None => true
               | Some (d, _) => (limit <=? t + d)%N
               end
  end.

End NetSpec.

Module MapViewSpec.
Import Js Types.

Definition parsesNumber (s : string) : bool := negb (isNaN (parseFloat s)).

Definition parsesFinite (s : string) : bool := isFinite (parseFloat s).

(** Latitude and longitude both parse to a Number that is not NaN. *)
Definition locatable (c : TrafficCamera) : bool :=
  match location c with
  | Some loc => parsesNumber (latitude loc) && parsesNumber (longitude loc)
  | None => false
  end.

(** Latitude and longitude both parse to a finite Number. *)
Definition finitelyLocated (c : TrafficCamera) : bool :=
  match location c with
  | Some loc => parsesFinite (latitude loc) && parsesFinite (longitude loc)
  | None => false
  end.

End MapViewSpec.

(* ================================================================== *)
(** ** Vocabulary of the statements about the camera card *)

Module CameraCardSpec.
Import Js Types.

(** The card is in one of the streaming states ([StreamAttaching],
    [StreamActive]); otherwise it shows the still image ([Snapshot], or
    [Suspended] when out of the viewport). *)
Definition streaming (s : CameraCard.State) : bool := CameraCard.isVideoPlaying s.

Definition streamingPlain (s : CameraCardPlain.State) : bool :=
  CameraCardPlain.isVideoPlaying s.

(** The snapshot url the card would request after its timer fired at [now]. *)
Definition bustedUrl (p : CameraCard.Props) (now : N) : string :=
  toString (url (imageurl (CameraCard.camera p))) ++ "?t=" ++ decimal now.

(** After the effects, the timer is armed exactly when no stream plays, and a
    playing stream is in the viewport. *)
Definition settled (p : CameraCard.Props) (s : CameraCard.State) : Prop :=
  CameraCard.interval s = (if CameraCard.isVideoPlaying s then None
                     else Some (CameraCard.refreshIntervalOf p))
  /\ (CameraCard.isVideoPlaying s = true -> CameraCard.isInView s = true).

End CameraCardSpec.

(* ================================================================== *)
(** ** Sample inputs *)

Module Samples.
Import Js Types Net ArcGIS.

Definition num (s : string) : number :=
  match s with
  | String c r => mkNumber c r
  | EmptyString => mkNumber "0"%char ""
  end.

Definition seattle : option Geometry :=
  Some (mkGeometry [num "-122.33"; num "47.6"]).

(** The scenario feature of the specification. *)
Definition fifthAve : ArcGISFeature :=
  {| id := None; geometry := seattle;
     properties := [("CameraLabel", VStr "5th Ave");
                    ("ImageURL", VStr "http://x/img.jpg")] |}.

(** A point, a label, and nothing that could serve as a snapshot. *)
Definition noSnapshot : ArcGISFeature :=
  {| id := Some (IdNumber (num "7")); geometry := seattle;
     properties := [("name", VStr "Pike St"); ("imageurl", VStr "ftp://x/a.jpg")] |}.

(** No geometry and only a latitude among the properties. *)
Definition latitudeOnly : ArcGISFeature :=
  {| id := None; geometry := None;
     properties := [("LAT", VStr "47.6"); ("imageurl", VStr "http://x/img.jpg")] |}.

(** Two spellings of [cameralabel]; the first one in key order holds a number. *)
Definition shadowedLabel : ArcGISFeature :=
  {| id := None; geometry := seattle;
     properties := [("CAMERALABEL", VNum (num "7"));
                    ("cameralabel", VStr "Alder St");
                    ("name", VStr "Broad St");
                    ("imageurl", VStr "http://x/img.jpg")] |}.

(** [name] comes first in key order, [CameraLabel] later. *)
Definition nameFirst : ArcGISFeature :=
  {| id := None; geometry := seattle;
     properties := [("Name", VStr "Broad St");
                    ("imageurl", VStr "http://x/img.jpg");
                    ("CameraLabel", VStr "Alder St")] |}.

(** A nested image object whose [url] does not start with [http]. *)
Definition nestedRelative : ArcGISFeature :=
  {| id := None; geometry := seattle;
     properties := [("imageurl", VObj [("url", VStr "/img/cam7.jpg")]);
                    ("video_url", VObj [("url", VStr "rtsp://x/7")]);
                    ("web_url", VObj [("url", VStr "cam7.html")])] |}.

(** The same nested object under a differently cased key. *)
Definition nestedOtherCase : ArcGISFeature :=
  {| id := None; geometry := seattle;
     properties := [("ImageURL", VObj [("url", VStr "http://x/img.jpg")])] |}.

Definition cameraAt (label lat lng : string) : TrafficCamera :=
  {| cameralabel := label;
     imageurl := mkUrl (VStr "http://x/img.jpg");
     video_url := None; web_url := None;
     x_coord := lng; y_coord := lat;
     location := Some (mkLocation lat lng) |}.

Definition pike : TrafficCamera := cameraAt "Pike St" "47.61" "-122.34".
Definition atInfinity : TrafficCamera := cameraAt "Nowhere" "Infinity" "-122.33".
Definition unparsable : TrafficCamera := cameraAt "Broken" "n/a" "-122.33".

(** The server never answers. *)
Definition silent {A} : Exchange A := mkExchange None None.

(** [200 OK] after 120 ms, then the body never ends. *)
Definition stalledBody {A} : Exchange A :=
  mkExchange (Some (120%N, Headers true 200 "OK")) None.

(** [200 OK] after 120 ms, the body a minute later. *)
Definition slowBody : Exchange (list TrafficCamera) :=
  mkExchange (Some (120%N, Headers true 200 "OK")) (Some (60000%N, Json [pike])).

(** [503] after 80 ms. *)
Definition unavailable {A} : Exchange A :=
  mkExchange (Some (80%N, Headers false 503 "Service Unavailable")) None.

(** [200 OK] after 120 ms, a body that is not JSON 30 ms later. *)
Definition garbled {A} : Exchange A :=
  mkExchange (Some (120%N, Headers true 200 "OK")) (Some (30%N, Malformed)).

Definition streamable : TrafficCamera :=
  {| cameralabel := "Pike St";
     imageurl := mkUrl (VStr "http://x/img.jpg");
     video_url := Some (mkUrl (VStr "http://x/live.m3u8"));
     web_url := None;
     x_coord := "-122.34"; y_coord := "47.61";
     location := Some (mkLocation "47.61" "-122.34") |}.

(** A card for a camera with a stream, and one for a camera without. *)
Definition withStream : CameraCard.Props := CameraCard.mkProps streamable None.
Definition withoutStream : CameraCard.Props := CameraCard.mkProps pike None.

End Samples.

(* ================================================================== *)
(** ** Vocabulary and sample inputs of the further statements *)

Module MoreSpec.
Import Js Types.

(** [`${feature.id ?? ''}`] *)
Definition idText (f : ArcGIS.ArcGISFeature) : string :=
  match ArcGIS.id f with
  | Some (ArcGIS.IdNumber n) => Number_toString n
  | Some (ArcGIS.IdString s) => s
  | None => ""
  end.

(** The events of an hls.js session that the error handler answers by itself:
    the manifest, an error that is not fatal, a fatal network or media error. *)
Definition handledInside (e : VideoPlayer.Event) : bool :=
  match e with
  | VideoPlayer.ManifestParsed => true
  | VideoPlayer.HlsError false _ => true
  | VideoPlayer.HlsError true VideoPlayer.NETWORK_ERROR => true
  | VideoPlayer.HlsError true VideoPlayer.MEDIA_ERROR => true
  | _ => false
  end.

Definition isFatalNetwork (e : VideoPlayer.Event) : bool :=
  match e with
  | VideoPlayer.HlsError true VideoPlayer.NETWORK_ERROR => true
  | _ => false
  end.

Definition isCallOnError (a : VideoPlayer.Action) : bool :=
  match a with VideoPlayer.CallOnError => true | _ => false end.

Definition isStartLoad (a : VideoPlayer.Action) : bool :=
  match a with VideoPlayer.StartLoad => true | _ => false end.

(** How often [onError] was called. *)
Definition onErrorCalls (acts : list VideoPlayer.Action) : nat :=
  List.length (filter isCallOnError acts).

(** The events of the app that pick a feed. *)
Definition picksFeed (e : App.Event) : bool :=
  match e with
  | App.ChooseSdot | App.ApplyArcGISUrl => true
  | _ => false
  end.

(** A string of white space only. *)
Definition allWhite (w : string) : Prop :=
  Forall (fun c => isWhiteSpace c = true) (list_ascii_of_string w).

End MoreSpec.

Module MoreSamples.
Import Js Types Net ArcGIS.

(** A point and a flat snapshot url, no label and no stream. *)
Definition unlabelled : ArcGISFeature :=
  {| id := Some (IdNumber (Samples.num "42")); geometry := Samples.seattle;
     properties := [("ImageUrl", VStr "https://x/42.jpg")] |}.

Definition unlabelledCamera : TrafficCamera :=
  {| cameralabel := "Camera 42";
     imageurl := mkUrl (VStr "https://x/42.jpg");
     video_url := None; web_url := None;
     x_coord := "-122.33"; y_coord := "47.6";
     location := Some (mkLocation "47.6" "-122.33") |}.

(** [200 OK] after 120 ms, the body 30 ms later. *)
Definition prompt : Exchange (list TrafficCamera) :=
  mkExchange (Some (120%N, Headers true 200 "OK")) (Some (30%N, Json [Samples.pike])).

Definition promptGeoJSON : Exchange ArcGISGeoJSON :=
  mkExchange (Some (120%N, Headers true 200 "OK"))
             (Some (30%N, Json (mkGeoJSON [unlabelled; Samples.noSnapshot]))).

Definition hlsBrowser : VideoPlayer.Browser := VideoPlayer.mkBrowser true false.
Definition oldBrowser : VideoPlayer.Browser := VideoPlayer.mkBrowser false false.

Definition liveStream : VideoPlayer.Props :=
  VideoPlayer.mkProps "http://x/live.m3u8" None.
Definition clip : VideoPlayer.Props :=
  VideoPlayer.mkProps "http://x/clip.mp4" None.

(** A geometry with a longitude only, and the latitude among the properties. *)
Definition mixedCoordinates : ArcGISFeature :=
  {| id := None; geometry := Some (mkGeometry [Samples.num "-122.33"]);
     properties := [("lat", VStr "47.6"); ("imageurl", VStr "http://x/img.jpg")] |}.

(** No geometry; the coordinates under [Latitude] and [LON]. *)
Definition propertyCoordinates : ArcGISFeature :=
  {| id := None; geometry := None;
     properties := [("Latitude", VStr "47.6"); ("LON", VStr "-122.33");
                    ("x", VStr "1271000"); ("imageurl", VStr "http://x/img.jpg")] |}.

(** Cameras for the map: a latitude above the pole, and one more in town. *)
Definition north91 : TrafficCamera := Samples.cameraAt "Too far north" "91" "-122.33".
Definition alder : TrafficCamera := Samples.cameraAt "Alder St" "47.6" "-122.32".

(** A label that starts with the capital A with grave accent (U+00C0), and
    the query [a-grave l] (U+00E0, then [l]). *)
Definition accented : TrafficCamera :=
  Samples.cameraAt (String (ascii_of_nat 192) "LDER ST") "47.6" "-122.32".
Definition accentedQuery : string := String (ascii_of_nat 224) "l".

(** No-break space (U+00A0), then a space. *)
Definition nbspThenSpace : string := String (ascii_of_nat 160) " ".

End MoreSamples.

(* ================================================================== *)
(** ** Facts about the ArcGIS normaliser *)

Module ArcGISFacts.
Import Js Types Net ArcGIS ArcGISSpec.
Local Open Scope list_scope.

Lemma nonEmpty_true (s : string) : nonEmpty s = true <-> s <> "".
Proof.
  unfold nonEmpty. destruct (String.eqb_spec s ""); simpl; split; congruence.
Qed.

Lemma nonEmpty_false (s : string) : nonEmpty s = false <-> s = "".
Proof.
  unfold nonEmpty. destruct (String.eqb_spec s ""); simpl; split; congruence.
Qed.

Lemma Number_toString_nonEmpty (n : number) : nonEmpty (Number_toString n) = true.
Proof. reflexivity. Qed.

Lemma startsWith_http_nonEmpty (val : string) :
  startsWith "http" val = true -> nonEmpty val = true.
Proof. destruct val; simpl; [discriminate | reflexivity]. Qed.

(** *** The two scans *)

Lemma urlAt_http (props : object) (c v : string) :
  urlAt props c = Some v -> startsWith "http" v = true.
Proof.
  unfold urlAt. destruct (findKey props c) as [key|]; [|discriminate].
  destruct (nonEmpty key); [|discriminate].
  destruct (get props key) as [[| | |val| |]|]; try discriminate.
  destruct (startsWith "http" val) eqn:E; [|discriminate].
  intros H; injection H as <-; exact E.
Qed.

Lemma stringAt_nonEmpty (props : object) (c v : string) :
  stringAt props c = Some v -> nonEmpty v = true.
Proof.
  unfold stringAt. destruct (findKey props c) as [key|]; [|discriminate].
  destruct (nonEmpty key); [|discriminate].
  destruct (get props key) as [[| | |val| |]|]; try discriminate.
  destruct (nonEmpty val) eqn:E; [|discriminate].
  intros H; injection H as <-; exact E.
Qed.

Lemma findUrl_first (props : object) (before after : list string) (c v : string) :
  Forall (fun b => urlAt props b = None) before ->
  urlAt props c = Some v ->
  findUrl props (before ++ c :: after) = v.
Proof.
  induction 1 as [|b before Hb _ IH]; simpl; intros Hc.
  - now rewrite Hc.
  - rewrite Hb. now apply IH.
Qed.

Lemma findString_first (props : object) (before after : list string) (c v : string) :
  Forall (fun b => stringAt props b = None) before ->
  stringAt props c = Some v ->
  findString props (before ++ c :: after) = v.
Proof.
  induction 1 as [|b before Hb _ IH]; simpl; intros Hc.
  - now rewrite Hc.
  - rewrite Hb. now apply IH.
Qed.

Lemma findUrl_empty (props : object) (cands : list string) :
  findUrl props cands = "" <-> Forall (fun c => urlAt props c = None) cands.
Proof.
  induction cands as [|c cands IH]; simpl.
  - split; auto.
  - destruct (urlAt props c) as [v|] eqn:E.
    + split.
      * intros ->. apply urlAt_http in E. discriminate.
      * intros H. inversion H; congruence.
    + rewrite IH. split; [now constructor | now inversion 1].
Qed.

Lemma findString_empty (props : object) (cands : list string) :
  findString props cands = "" <-> Forall (fun c => stringAt props c = None) cands.
Proof.
  induction cands as [|c cands IH]; simpl.
  - split; auto.
  - destruct (stringAt props c) as [v|] eqn:E.
    + split.
      * intros ->. apply stringAt_nonEmpty in E. discriminate.
      * intros H. inversion H; congruence.
    + rewrite IH. split; [now constructor | now inversion 1].
Qed.

(** *** The nested fallback *)


Lemma or_else_empty (v : value) : or_else (VStr "") v = v.
Proof. reflexivity. Qed.

Lemma rawImageUrl_fallback (props : object) :
  findUrl props imageCandidates = "" -> rawImageUrl props = nestedUrl props "imageurl".
Proof. unfold rawImageUrl. intros ->. apply or_else_empty. Qed.

Lemma rawVideoUrl_fallback (props : object) :
  findUrl props videoCandidates = "" -> rawVideoUrl props = nestedUrl props "video_url".
Proof. unfold rawVideoUrl. intros ->. apply or_else_empty. Qed.

Lemma rawWebUrl_fallback (props : object) :
  findUrl props webCandidates = "" -> rawWebUrl props = nestedUrl props "web_url".
Proof. unfold rawWebUrl. intros ->. apply or_else_empty. Qed.

(** *** [mapFeature] *)

(** [mapFeature] returns a record exactly when both coordinates and the
    snapshot are there, and the record is then determined. *)
Lemma mapFeature_cases (f : ArcGISFeature) :
  (mapFeature f = None /\
   (nonEmpty (resolveLat f) = false \/ nonEmpty (resolveLng f) = false \/
    truthy (rawImageUrl (properties f)) = false))
  \/
  (nonEmpty (resolveLat f) = true /\ nonEmpty (resolveLng f) = true /\
   truthy (rawImageUrl (properties f)) = true /\
   mapFeature f =
   Some {| cameralabel := resolveLabel f;
           imageurl := mkUrl (rawImageUrl (properties f));
           video_url := optionalUrl (rawVideoUrl (properties f));
           web_url := optionalUrl (rawWebUrl (properties f));
           x_coord := or_string (findString (properties f) xCandidates) (resolveLng f);
           y_coord := or_string (findString (properties f) yCandidates) (resolveLat f);
           location := Some (mkLocation (resolveLat f) (resolveLng f)) |}).
Proof.
  unfold mapFeature.
  destruct (nonEmpty (resolveLat f)); simpl; [|left; auto].
  destruct (nonEmpty (resolveLng f)); simpl; [|left; auto].
  destruct (truthy (rawImageUrl (properties f))); simpl; [right; auto | left; auto].
Qed.

Lemma mapFeature_snapshot (f : ArcGISFeature) (c : TrafficCamera) :
  mapFeature f = Some c -> hasSnapshot c = true.
Proof.
  destruct (mapFeature_cases f) as [[E _]|(_ & _ & Himg & E)]; rewrite E.
  - discriminate.
  - intros H; injection H as <-. exact Himg.
Qed.



Lemma camerasOf_cons (f : ArcGISFeature) (fs : list ArcGISFeature) :
  camerasOf (f :: fs) =
  match mapFeature f with Some c => c :: camerasOf fs | None => camerasOf fs end.
Proof. unfold camerasOf. simpl. now destruct (mapFeature f). Qed.


Lemma camerasOf_snapshot (fs : list ArcGISFeature) :
  Forall (fun c => hasSnapshot c = true) (camerasOf fs).
Proof.
  induction fs as [|f fs IH]; [constructor|].
  rewrite camerasOf_cons. destruct (mapFeature f) as [c|] eqn:E; [|exact IH].
  constructor; [now apply (mapFeature_snapshot f) | exact IH].
Qed.




(** *** Coordinates *)

Lemma mapFeature_needs_coordinates (f : ArcGISFeature) :
  nonEmpty (resolveLat f) = false \/ nonEmpty (resolveLng f) = false ->
  mapFeature f = None.
Proof.
  intros H. destruct (mapFeature_cases f) as [[E _]|(Hlat & Hlng & _)]; [exact E|].
  destruct H; congruence.
Qed.

Lemma mapFeature_location (f : ArcGISFeature) (c : TrafficCamera) :
  mapFeature f = Some c ->
  location c = Some (mkLocation (resolveLat f) (resolveLng f)).
Proof.
  destruct (mapFeature_cases f) as [[E _]|(_ & _ & _ & E)]; rewrite E.
  - discriminate.
  - intros H; injection H as <-. reflexivity.
Qed.

Lemma declared_without_geometry (f : ArcGISFeature) :
  declaredGeometry f = true -> geometryResolves f = false -> geometry f = None.
Proof.
  unfold declaredGeometry, geometryResolves.
  destruct (geometry f) as [g|]; [congruence | reflexivity].
Qed.

Lemma point_is_resolved (f : ArcGISFeature) (x y : number) (rest : list number) :
  geometry f = Some (mkGeometry (x :: y :: rest)) ->
  resolveLng f = Number_toString x /\ resolveLat f = Number_toString y.
Proof.
  intros H. unfold resolveLng, resolveLat. rewrite H. split; reflexivity.
Qed.

(** *** Key lookup *)

Lemma get_In (o : object) (k : string) (v : value) :
  get o k = Some v -> In (k, v) o.
Proof.
  induction o as [|[k' v'] o IH]; simpl; [discriminate|].
  destruct (String.eqb_spec k' k) as [->|_].
  - intros H; injection H as <-. now left.
  - intros H. right. now apply IH.
Qed.

Lemma In_get (o : object) (k : string) (v : value) :
  In (k, v) o -> exists v', get o k = Some v'.
Proof.
  induction o as [|[k' v'] o IH]; simpl; [contradiction|].
  destruct (String.eqb_spec k' k) as [->|Hne]; [eauto|].
  intros [H|H]; [congruence | now apply IH].
Qed.

Lemma get_find (o : object) (k : string) :
  get o k = option_map snd (find (fun kv => fst kv =? k) o).
Proof.
  induction o as [|[k' v'] o IH]; simpl; [reflexivity|].
  now destruct (k' =? k).
Qed.

Lemma toLowerCase_nonEmpty (k c : string) :
  toLowerCase k = toLowerCase c -> nonEmpty c = true -> nonEmpty k = true.
Proof. destruct k, c; simpl; try discriminate; auto. Qed.

Lemma findKey_spec (props : object) (c : string) :
  match findKey props c with
  | Some key => In key (keys props) /\ toLowerCase key = toLowerCase c
  | None => forall k, In k (keys props) -> toLowerCase k <> toLowerCase c
  end.
Proof.
  unfold findKey.
  destruct (find _ (keys props)) as [key|] eqn:E.
  - apply find_some in E as [Hin Heq]. apply String.eqb_eq in Heq. auto.
  - intros k Hin Heq. apply (find_none _ _ E) in Hin.
    apply String.eqb_neq in Hin. contradiction.
Qed.

(** When a single property spells the candidate, the scan returns it. *)
Lemma stringAt_only_spelling (props : object) (c k v : string) :
  In (k, VStr v) props ->
  toLowerCase k = toLowerCase c ->
  nonEmpty c = true ->
  v <> "" ->
  (forall k' v', In (k', v') props -> toLowerCase k' = toLowerCase c ->
                 k' = k /\ v' = VStr v) ->
  stringAt props c = Some v.
Proof.
  intros Hin Hlow Hc Hv Honly. unfold stringAt.
  pose proof (findKey_spec props c) as Hk.
  destruct (findKey props c) as [key|].
  - destruct Hk as [Hkey Heq].
    unfold keys in Hkey. apply in_map_iff in Hkey as ([k0 v0] & <- & Hin0).
    simpl in *. destruct (Honly _ _ Hin0 Heq) as [-> ->].
    rewrite (toLowerCase_nonEmpty _ _ Hlow Hc).
    destruct (In_get _ _ _ Hin) as [v1 Hget]. rewrite Hget.
    apply get_In in Hget. destruct (Honly _ _ Hget Hlow) as [_ ->].
    apply nonEmpty_true in Hv. now rewrite Hv.
  - exfalso. apply (Hk k); [|exact Hlow].
    unfold keys. apply in_map_iff. now exists (k, VStr v).
Qed.

(** *** The order of the keys *)

Lemma NoDup_map_eq {A B : Type} (g : A -> B) (l : list A) (x y : A) :
  NoDup (map g l) -> In x l -> In y l -> g x = g y -> x = y.
Proof.
  induction l as [|a l IH]; simpl; [contradiction|].
  intros Hnd Hx Hy Heq. inversion Hnd as [|? ? Hnotin Hnd']; subst.
  destruct Hx as [->|Hx], Hy as [->|Hy]; auto.
  - exfalso. apply Hnotin. rewrite Heq. now apply in_map.
  - exfalso. apply Hnotin. rewrite <- Heq. now apply in_map.
Qed.

Lemma find_single_match {A : Type} (p : A -> bool) (l l' : list A) :
  Permutation l l' ->
  (forall x y, In x l -> In y l -> p x = true -> p y = true -> x = y) ->
  find p l = find p l'.
Proof.
  induction 1 as [|a l l' Hperm IH|a b l|l l' l'' H1 IH1 H2 IH2]; intros Huniq.
  - reflexivity.
  - simpl. destruct (p a); [reflexivity|].
    apply IH. intros x y Hx Hy. apply Huniq; now right.
  - simpl. destruct (p a) eqn:Ea, (p b) eqn:Eb; try reflexivity.
    f_equal. apply Huniq; simpl; auto.
  - rewrite IH1 by exact Huniq. apply IH2.
    intros x y Hx Hy. apply Huniq; eapply Permutation_in;
      try (apply Permutation_sym; exact H1); assumption.
Qed.

Lemma caseDistinct_keys (props : object) : caseDistinct props -> NoDup (keys props).
Proof. unfold caseDistinct. apply NoDup_map_inv. Qed.

Lemma findKey_perm (props props' : object) (c : string) :
  Permutation props props' -> caseDistinct props ->
  findKey props c = findKey props' c.
Proof.
  intros Hperm Hcd. unfold findKey. apply find_single_match.
  - unfold keys. now apply Permutation_map.
  - intros x y Hx Hy Ex Ey. apply String.eqb_eq in Ex, Ey.
    apply (NoDup_map_eq toLowerCase (keys props)); try assumption; congruence.
Qed.

Lemma get_perm (props props' : object) (k : string) :
  Permutation props props' -> NoDup (keys props) ->
  get props k = get props' k.
Proof.
  intros Hperm Hnd. rewrite !get_find. f_equal. apply find_single_match; [exact Hperm|].
  intros x y Hx Hy Ex Ey. apply String.eqb_eq in Ex, Ey.
  apply (NoDup_map_eq fst props); try assumption; congruence.
Qed.

Lemma stringAt_perm (props props' : object) (c : string) :
  Permutation props props' -> caseDistinct props ->
  stringAt props c = stringAt props' c.
Proof.
  intros Hperm Hcd. unfold stringAt.
  rewrite <- (findKey_perm _ _ c Hperm Hcd).
  destruct (findKey props c) as [key|]; [|reflexivity].
  now rewrite <- (get_perm _ _ key Hperm (caseDistinct_keys _ Hcd)).
Qed.

Lemma urlAt_perm (props props' : object) (c : string) :
  Permutation props props' -> caseDistinct props ->
  urlAt props c = urlAt props' c.
Proof.
  intros Hperm Hcd. unfold urlAt.
  rewrite <- (findKey_perm _ _ c Hperm Hcd).
  destruct (findKey props c) as [key|]; [|reflexivity].
  now rewrite <- (get_perm _ _ key Hperm (caseDistinct_keys _ Hcd)).
Qed.

Lemma findString_perm (props props' : object) (cands : list string) :
  Permutation props props' -> caseDistinct props ->
  findString props cands = findString props' cands.
Proof.
  intros Hperm Hcd. induction cands as [|c cands IH]; simpl; [reflexivity|].
  now rewrite <- (stringAt_perm _ _ c Hperm Hcd), IH.
Qed.

Lemma findUrl_perm (props props' : object) (cands : list string) :
  Permutation props props' -> caseDistinct props ->
  findUrl props cands = findUrl props' cands.
Proof.
  intros Hperm Hcd. induction cands as [|c cands IH]; simpl; [reflexivity|].
  now rewrite <- (urlAt_perm _ _ c Hperm Hcd), IH.
Qed.

(** *** The label *)

Lemma resolveLabel_cameralabel (f : ArcGISFeature) (v : string) :
  stringAt (properties f) "cameralabel" = Some v -> resolveLabel f = v.
Proof.
  intros H. unfold resolveLabel, labelCandidates. simpl. rewrite H.
  unfold or_string. now rewrite (stringAt_nonEmpty _ _ _ H).
Qed.

Lemma mapFeature_label (f : ArcGISFeature) (c : TrafficCamera) :
  mapFeature f = Some c -> cameralabel c = resolveLabel f.
Proof.
  destruct (mapFeature_cases f) as [[E _]|(_ & _ & _ & E)]; rewrite E.
  - discriminate.
  - intros H; injection H as <-. reflexivity.
Qed.

(** *** The first spelling of a candidate *)

(** The key a candidate consults, and the value read under it, are those of
    the first property, in key order, whose key spells the candidate. *)
Lemma first_spelling (pre post : object) (key : string) (v : value) (c : string) :
  (forall k' v', In (k', v') pre -> toLowerCase k' <> toLowerCase c) ->
  toLowerCase key = toLowerCase c ->
  findKey (pre ++ (key, v) :: post) c = Some key
  /\ get (pre ++ (key, v) :: post) key = Some v.
Proof.
  intros Hpre Hkey. induction pre as [|[k0 v0] pre IH].
  - unfold findKey. simpl. apply String.eqb_eq in Hkey. rewrite Hkey.
    now rewrite String.eqb_refl.
  - assert (H0 : toLowerCase k0 <> toLowerCase c) by (apply (Hpre k0 v0); now left).
    destruct IH as [IHk IHg]; [intros k' v' H; apply (Hpre k' v'); now right|].
    unfold findKey in *. simpl. apply String.eqb_neq in H0. rewrite H0.
    split; [exact IHk|].
    destruct (String.eqb_spec k0 key) as [->|_]; [|exact IHg].
    apply String.eqb_neq in H0. congruence.
Qed.

Lemma stringAt_first_spelling (pre post : object) (key : string) (v : value) (c : string) :
  (forall k' v', In (k', v') pre -> toLowerCase k' <> toLowerCase c) ->
  toLowerCase key = toLowerCase c ->
  nonEmpty c = true ->
  stringAt (pre ++ (key, v) :: post) c =
  match v with
  | VStr s => if nonEmpty s then Some s else None
  | _ => None
  end.
Proof.
  intros Hpre Hkey Hc. destruct (first_spelling pre post key v c Hpre Hkey) as [Hk Hg].
  unfold stringAt. rewrite Hk, (toLowerCase_nonEmpty _ _ Hkey Hc), Hg.
  now destruct v.
Qed.

Lemma urlAt_first_spelling (pre post : object) (key : string) (v : value) (c : string) :
  (forall k' v', In (k', v') pre -> toLowerCase k' <> toLowerCase c) ->
  toLowerCase key = toLowerCase c ->
  nonEmpty c = true ->
  urlAt (pre ++ (key, v) :: post) c =
  match v with
  | VStr s => if startsWith "http" s then Some s else None
  | _ => None
  end.
Proof.
  intros Hpre Hkey Hc. destruct (first_spelling pre post key v c Hpre Hkey) as [Hk Hg].
  unfold urlAt. rewrite Hk, (toLowerCase_nonEmpty _ _ Hkey Hc), Hg.
  now destruct v.
Qed.

Lemma no_spelling (props : object) (c : string) :
  (forall k v, In (k, v) props -> toLowerCase k <> toLowerCase c) ->
  stringAt props c = None /\ urlAt props c = None.
Proof.
  intros H. pose proof (findKey_spec props c) as Hs.
  unfold stringAt, urlAt. destruct (findKey props c) as [key|]; [|auto].
  destruct Hs as [Hin Hlow]. unfold keys in Hin.
  apply in_map_iff in Hin as ([k v] & <- & Hin). now destruct (H k v Hin).
Qed.

Lemma mapFeature_None_iff (f : ArcGISFeature) :
  mapFeature f = None <->
  resolveLat f = "" \/ resolveLng f = "" \/ truthy (rawImageUrl (properties f)) = false.
Proof.
  rewrite <- !nonEmpty_false.
  destruct (mapFeature_cases f) as [[E H]|(Hlat & Hlng & Himg & E)]; rewrite E.
  - tauto.
  - rewrite Hlat, Hlng, Himg. split; [discriminate|].
    intros [H|[H|H]]; discriminate.
Qed.

Lemma fallback_lng (f : ArcGISFeature) :
  coordinateText (geometry f) 0 = None ->
  resolveLng f = findString (properties f) lngCandidates.
Proof. unfold resolveLng. now intros ->. Qed.

Lemma fallback_lat (f : ArcGISFeature) :
  coordinateText (geometry f) 1 = None ->
  resolveLat f = findString (properties f) latCandidates.
Proof. unfold resolveLat. now intros ->. Qed.

(** C2, as stated, fails: the geometry carries a longitude only and the
    properties a latitude only, so neither path resolves both coordinates,
    and the feature is emitted with the longitude of the one and the latitude
    of the other. *)
Lemma C2_counterexample :
  geometryResolves MoreSamples.mixedCoordinates = false
  /\ propertiesResolve MoreSamples.mixedCoordinates = false
  /\ mapFeature MoreSamples.mixedCoordinates
     = Some {| cameralabel := "Camera ";
               imageurl := mkUrl (VStr "http://x/img.jpg");
               video_url := None; web_url := None;
               x_coord := "-122.33"; y_coord := "47.6";
               location := Some (mkLocation "47.6" "-122.33") |}.
Proof. repeat split. Qed.

(** C2, amended.  Each coordinate is resolved on its own.  The longitude is
    the first number of the geometry and the latitude the second, when the
    geometry has them, whatever the properties hold.  A coordinate the
    geometry does not give is the result of the scan of the properties, over
    [longitude, lon, long, x] or over [latitude, lat, y]: the value of the
    first candidate that finds a usable string, the candidate being compared
    with the keys up to letter case; in particular the string under the first
    key that spells [longitude] (or [latitude]).  The feature is mapped to no
    record exactly when a resolved coordinate is empty or there is no
    snapshot, so a feature with an empty coordinate is dropped whatever its
    snapshot url; a feature whose geometry is null or a full point and for
    which neither path gives both coordinates is dropped.  An emitted record
    carries the resolved pair as its location. *)
Theorem C2_coordinate_resolution (f : ArcGISFeature) :
  (forall g x, geometry f = Some g -> nth_error (coordinates g) 0 = Some x ->
     resolveLng f = Number_toString x)
  /\ (forall g y, geometry f = Some g -> nth_error (coordinates g) 1 = Some y ->
        resolveLat f = Number_toString y)
  /\ (coordinateText (geometry f) 0 = None ->
      resolveLng f = findString (properties f) lngCandidates
      /\ (forall before c after v,
            lngCandidates = before ++ c :: after ->
            Forall (fun b => stringAt (properties f) b = None) before ->
            stringAt (properties f) c = Some v ->
            resolveLng f = v)
      /\ (forall pre key v post,
            properties f = pre ++ (key, VStr v) :: post ->
            (forall k' v', In (k', v') pre -> toLowerCase k' <> "longitude") ->
            toLowerCase key = "longitude" -> v <> "" ->
            resolveLng f = v))
  /\ (coordinateText (geometry f) 1 = None ->
      resolveLat f = findString (properties f) latCandidates
      /\ (forall before c after v,
            latCandidates = before ++ c :: after ->
            Forall (fun b => stringAt (properties f) b = None) before ->
            stringAt (properties f) c = Some v ->
            resolveLat f = v)
      /\ (forall pre key v post,
            properties f = pre ++ (key, VStr v) :: post ->
            (forall k' v', In (k', v') pre -> toLowerCase k' <> "latitude") ->
            toLowerCase key = "latitude" -> v <> "" ->
            resolveLat f = v))
  /\ (mapFeature f = None <->
      resolveLat f = "" \/ resolveLng f = ""
      \/ truthy (rawImageUrl (properties f)) = false)
  /\ (declaredGeometry f = true -> geometryResolves f = false ->
      propertiesResolve f = false -> mapFeature f = None)
  /\ (forall c, mapFeature f = Some c ->
        location c = Some (mkLocation (resolveLat f) (resolveLng f))).
Proof.
  split; [|split; [|split; [|split; [|split; [|split]]]]].
  - intros g x Hg Hx. unfold resolveLng, coordinateText. now rewrite Hg, Hx.
  - intros g y Hg Hy. unfold resolveLat, coordinateText. now rewrite Hg, Hy.
  - intros Hnone. rewrite (fallback_lng f Hnone). split; [reflexivity|]. split.
    + intros before c after v -> Hbefore Hc. now apply findString_first.
    + intros pre key v post Hprops Hpre Hkey Hv.
      apply (findString_first (properties f) [] ["lon"; "long"; "x"] "longitude" v);
        [constructor|].
      rewrite Hprops, (stringAt_first_spelling pre post key (VStr v) "longitude");
        auto.
      apply nonEmpty_true in Hv. now rewrite Hv.
  - intros Hnone. rewrite (fallback_lat f Hnone). split; [reflexivity|]. split.
    + intros before c after v -> Hbefore Hc. now apply findString_first.
    + intros pre key v post Hprops Hpre Hkey Hv.
      apply (findString_first (properties f) [] ["lat"; "y"] "latitude" v);
        [constructor|].
      rewrite Hprops, (stringAt_first_spelling pre post key (VStr v) "latitude");
        auto.
      apply nonEmpty_true in Hv. now rewrite Hv.
  - apply mapFeature_None_iff.
  - intros Hgeo Hg Hp. pose proof (declared_without_geometry f Hgeo Hg) as Hnone.
    apply mapFeature_needs_coordinates.
    unfold resolveLng, resolveLat. rewrite Hnone. simpl.
    unfold propertiesResolve in Hp. apply andb_false_iff in Hp. tauto.
  - apply mapFeature_location.
Qed.

Lemma C2_coordinate_resolution_witness :
  resolveLat MoreSamples.propertyCoordinates = "47.6"
  /\ resolveLng MoreSamples.propertyCoordinates = "-122.33"
  /\ (exists c, mapFeature MoreSamples.propertyCoordinates = Some c
                /\ location c = Some (mkLocation "47.6" "-122.33"))
  /\ resolveLng Samples.fifthAve = "-122.33"
  /\ mapFeature Samples.latitudeOnly = None.
Proof.
  pose proof (C2_coordinate_resolution MoreSamples.propertyCoordinates)
    as (_ & _ & Hlng & Hlat & _ & _ & Hloc).
  assert (Elat : resolveLat MoreSamples.propertyCoordinates = "47.6").
  { apply (proj2 (proj2 (Hlat eq_refl)) [] "Latitude" "47.6"
             [("LON", VStr "-122.33"); ("x", VStr "1271000");
              ("imageurl", VStr "http://x/img.jpg")]);
      [reflexivity | intros k' v' [] | reflexivity | discriminate]. }
  assert (Elng : resolveLng MoreSamples.propertyCoordinates = "-122.33").
  { apply (proj1 (proj2 (Hlng eq_refl)) ["longitude"] "lon" ["long"; "x"]);
      [reflexivity | repeat constructor | reflexivity]. }
  split; [exact Elat|]. split; [exact Elng|]. split.
  - eexists. split; [reflexivity|]. rewrite <- Elat, <- Elng. now apply Hloc.
  - split.
    + apply (proj1 (C2_coordinate_resolution Samples.fifthAve)
               (mkGeometry [Samples.num "-122.33"; Samples.num "47.6"])
               (Samples.num "-122.33")); reflexivity.
    + apply (proj1 (proj2 (proj2 (proj2 (proj2 (proj2
               (C2_coordinate_resolution Samples.latitudeOnly)))))));
        reflexivity.
Defined.

(** C3, as stated, fails: the properties hold a [cameralabel] key and a
    [name] key with different non-empty strings, and the emitted label is the
    value of [name], because another spelling of [cameralabel] that holds a
    number comes first in key order. *)
Lemma C3_counterexample :
  In ("cameralabel", VStr "Alder St") (properties Samples.shadowedLabel)
  /\ In ("name", VStr "Broad St") (properties Samples.shadowedLabel)
  /\ toLowerCase "cameralabel" = "cameralabel"
  /\ toLowerCase "name" = "name"
  /\ (exists c, mapFeature Samples.shadowedLabel = Some c
                /\ cameralabel c = "Broad St"
                /\ cameralabel c <> "Alder St").
Proof.
  split; [simpl; tauto|]. split; [simpl; tauto|].
  split; [reflexivity|]. split; [reflexivity|].
  eexists. split; [reflexivity|]. split; [reflexivity|]. discriminate.
Qed.

Lemma resolveLabel_skips_cameralabel (f : ArcGISFeature) :
  stringAt (properties f) "cameralabel" = None ->
  resolveLabel f = or_string (findString (properties f) (tl labelCandidates))
                             (defaultLabel f).
Proof. intros H. unfold resolveLabel, labelCandidates. simpl. now rewrite H. Qed.

(** C3, amended.  In both scans a candidate is compared with the keys up to
    letter case and consults one key only: the first, in key order, that
    spells it.  The turn of a candidate returns the value under that key when
    it is a usable string (not empty for [findString], starting with [http]
    for [findUrl]) and nothing otherwise, whatever later spellings of the
    same candidate hold; with no key that spells it, it returns nothing.  The
    first candidate of the list whose turn returns a value gives the result,
    whatever comes later in the list; on an object whose keys are distinct up
    to case, reordering the properties changes no result.  So when the first
    key that spells [cameralabel] holds a non-empty string, that string is the
    label of the emitted record, whatever a [name] property holds; when it
    holds anything else, the label is resolved from the remaining candidates
    as if the feature had no [cameralabel]. *)
Theorem C3_candidate_priority :
  (forall pre key v post c,
     (forall k' v', In (k', v') pre -> toLowerCase k' <> toLowerCase c) ->
     toLowerCase key = toLowerCase c ->
     nonEmpty c = true ->
     stringAt (pre ++ (key, v) :: post) c
     = match v with
       | VStr s => if nonEmpty s then Some s else None
       | _ => None
       end
     /\ urlAt (pre ++ (key, v) :: post) c
        = match v with
          | VStr s => if startsWith "http" s then Some s else None
          | _ => None
          end)
  /\ (forall props c,
        (forall k v, In (k, v) props -> toLowerCase k <> toLowerCase c) ->
        stringAt props c = None /\ urlAt props c = None)
  /\ (forall props before c after v,
        Forall (fun b => stringAt props b = None) before ->
        stringAt props c = Some v ->
        findString props (before ++ c :: after) = v)
  /\ (forall props before c after v,
        Forall (fun b => urlAt props b = None) before ->
        urlAt props c = Some v ->
        findUrl props (before ++ c :: after) = v)
  /\ (forall props props' cands,
        Permutation props props' -> caseDistinct props ->
        findString props cands = findString props' cands
        /\ findUrl props cands = findUrl props' cands)
  /\ (forall f pre key vc post,
        properties f = pre ++ (key, VStr vc) :: post ->
        (forall k' v', In (k', v') pre -> toLowerCase k' <> "cameralabel") ->
        toLowerCase key = "cameralabel" ->
        vc <> "" ->
        resolveLabel f = vc
        /\ forall c, mapFeature f = Some c -> cameralabel c = vc)
  /\ (forall f pre key v post,
        properties f = pre ++ (key, v) :: post ->
        (forall k' v', In (k', v') pre -> toLowerCase k' <> "cameralabel") ->
        toLowerCase key = "cameralabel" ->
        (forall s, v = VStr s -> s = "") ->
        resolveLabel f
        = or_string (findString (properties f) (tl labelCandidates)) (defaultLabel f)
        /\ forall c, mapFeature f = Some c ->
             cameralabel c
             = or_string (findString (properties f) (tl labelCandidates))
                         (defaultLabel f)).
Proof.
  split; [|split; [|split; [|split; [|split; [|split]]]]].
  - intros pre key v post c Hpre Hkey Hc.
    split; [now apply stringAt_first_spelling | now apply urlAt_first_spelling].
  - apply no_spelling.
  - intros; now apply findString_first.
  - intros; now apply findUrl_first.
  - intros props props' cands Hperm Hcd.
    split; [now apply findString_perm | now apply findUrl_perm].
  - intros f pre key vc post Hprops Hpre Hkey Hne.
    assert (Hat : stringAt (properties f) "cameralabel" = Some vc).
    { rewrite Hprops, (stringAt_first_spelling pre post key (VStr vc) "cameralabel");
        auto.
      apply nonEmpty_true in Hne. now rewrite Hne. }
    split; [now apply resolveLabel_cameralabel|].
    intros c Hc. rewrite (mapFeature_label _ _ Hc).
    now apply resolveLabel_cameralabel.
  - intros f pre key v post Hprops Hpre Hkey Hv.
    assert (Hat : stringAt (properties f) "cameralabel" = None).
    { rewrite Hprops, (stringAt_first_spelling pre post key v "cameralabel"); auto.
      destruct v as [| | |s| |]; try reflexivity.
      now rewrite (Hv s eq_refl). }
    split; [now apply resolveLabel_skips_cameralabel|].
    intros c Hc. rewrite (mapFeature_label _ _ Hc).
    now apply resolveLabel_skips_cameralabel.
Qed.

Lemma C3_candidate_priority_witness :
  stringAt (properties Samples.shadowedLabel) "cameralabel" = None
  /\ resolveLabel Samples.shadowedLabel = "Broad St"
  /\ resolveLabel Samples.nameFirst = "Alder St".
Proof.
  pose proof C3_candidate_priority as (Hturn & _ & _ & _ & _ & Hfirst & Hshadow).
  split; [|split].
  - exact (proj1 (Hturn [] "CAMERALABEL" (VNum (Samples.num "7"))
                    [("cameralabel", VStr "Alder St"); ("name", VStr "Broad St");
                     ("imageurl", VStr "http://x/img.jpg")]
                    "cameralabel" (fun k' v' H => match H with end)
                    eq_refl eq_refl)).
  - rewrite (proj1 (Hshadow Samples.shadowedLabel [] "CAMERALABEL"
                      (VNum (Samples.num "7"))
                      [("cameralabel", VStr "Alder St"); ("name", VStr "Broad St");
                       ("imageurl", VStr "http://x/img.jpg")]
                      eq_refl (fun k' v' H => match H with end) eq_refl
                      (fun s H => match H with eq_refl => I end))).
    reflexivity.
  - apply (proj1 (Hfirst Samples.nameFirst
                    [("Name", VStr "Broad St"); ("imageurl", VStr "http://x/img.jpg")]
                    "CameraLabel" "Alder St" [] eq_refl
                    ltac:(intros k' v' [H|[H|[]]]; injection H as <- <-; discriminate)
                    eq_refl ltac:(discriminate))).
Defined.

(** *** The nested fallback, continued *)

Lemma nestedUrl_accepts (props : object) (key : string) (fields : object) (s : string) :
  get props key = Some (VObj fields) ->
  get fields "url" = Some (VStr s) ->
  nestedUrl props key = VStr s.
Proof. unfold nestedUrl. intros -> ->. reflexivity. Qed.

Lemma nestedUrl_exact_key (props props' : object) (key : string) :
  get props' key = get props key -> nestedUrl props' key = nestedUrl props key.
Proof. unfold nestedUrl. now intros ->. Qed.

Lemma nestedUrl_absent (props : object) (key : string) :
  get props key = None -> nestedUrl props key = VStr "".
Proof. unfold nestedUrl. now intros ->. Qed.

Lemma or_else_nonEmpty (v : value) : truthy v = true -> or_else v (VStr "") = v.
Proof. unfold or_else. now intros ->. Qed.

Lemma mapFeature_urls (f : ArcGISFeature) (c : TrafficCamera) :
  mapFeature f = Some c ->
  imageurl c = mkUrl (rawImageUrl (properties f))
  /\ video_url c = optionalUrl (rawVideoUrl (properties f))
  /\ web_url c = optionalUrl (rawWebUrl (properties f)).
Proof.
  destruct (mapFeature_cases f) as [[E _]|(_ & _ & _ & E)]; rewrite E.
  - discriminate.
  - intros H; injection H as <-. repeat split.
Qed.

Lemma mapFeature_emits (f : ArcGISFeature) :
  nonEmpty (resolveLat f) = true -> nonEmpty (resolveLng f) = true ->
  truthy (rawImageUrl (properties f)) = true ->
  exists c, mapFeature f = Some c.
Proof.
  intros Hlat Hlng Himg.
  destruct (mapFeature_cases f) as [[_ [H|[H|H]]]|(_ & _ & _ & E)];
    try congruence. eauto.
Qed.

(** C10.  When the flat scan of the snapshot candidates returns nothing, the
    snapshot of a feature is what the nested fallback finds under the exact
    key [imageurl]: a non-empty string in the [url] field of the object there
    becomes the [imageurl] of the emitted record as it is, with no test of
    its prefix, and with no property under that exact key the feature is
    dropped, whatever the other keys hold.  The stream and the detail url
    follow the same pattern with [video_url] and [web_url]: the string in
    [url] becomes the [video_url] or [web_url] of the record, and with no
    property under the exact key the record has none.  The fallback depends
    on the property under the exact key alone. *)
Theorem C10_nested_fallback (f : ArcGISFeature) :
  (findUrl (properties f) imageCandidates = "" ->
   (forall fields s,
      get (properties f) "imageurl" = Some (VObj fields) ->
      get fields "url" = Some (VStr s) -> s <> "" ->
      nonEmpty (resolveLat f) = true -> nonEmpty (resolveLng f) = true ->
      exists c, mapFeature f = Some c /\ imageurl c = mkUrl (VStr s))
   /\ (get (properties f) "imageurl" = None -> mapFeature f = None))
  /\ (findUrl (properties f) videoCandidates = "" ->
      forall c, mapFeature f = Some c ->
        (forall fields s,
           get (properties f) "video_url" = Some (VObj fields) ->
           get fields "url" = Some (VStr s) -> s <> "" ->
           video_url c = Some (mkUrl (VStr s)))
        /\ (get (properties f) "video_url" = None -> video_url c = None))
  /\ (findUrl (properties f) webCandidates = "" ->
      forall c, mapFeature f = Some c ->
        (forall fields s,
           get (properties f) "web_url" = Some (VObj fields) ->
           get fields "url" = Some (VStr s) -> s <> "" ->
           web_url c = Some (mkUrl (VStr s)))
        /\ (get (properties f) "web_url" = None -> web_url c = None))
  /\ (forall key g,
        get (properties g) key = get (properties f) key ->
        nestedUrl (properties g) key = nestedUrl (properties f) key).
Proof.
  split; [|split; [|split]].
  - intros Hflat. split.
    + intros fields s Hget Hurl Hs Hlat Hlng.
      assert (Hraw : rawImageUrl (properties f) = VStr s)
        by (rewrite (rawImageUrl_fallback _ Hflat); now apply (nestedUrl_accepts _ _ fields)).
      destruct (mapFeature_emits f Hlat Hlng) as [c Hc].
      { rewrite Hraw. now apply nonEmpty_true. }
      exists c. split; [exact Hc|].
      destruct (mapFeature_urls f c Hc) as (Himg & _ & _). now rewrite Himg, Hraw.
    + intros Hnone. apply mapFeature_None_iff. right. right.
      now rewrite (rawImageUrl_fallback _ Hflat), (nestedUrl_absent _ _ Hnone).
  - intros Hflat c Hc. destruct (mapFeature_urls f c Hc) as (_ & Hvid & _).
    rewrite Hvid, (rawVideoUrl_fallback _ Hflat). split.
    + intros fields s Hget Hurl Hs.
      rewrite (nestedUrl_accepts _ _ fields s Hget Hurl). unfold optionalUrl. simpl.
      apply nonEmpty_true in Hs. now rewrite Hs.
    + intros Hnone. now rewrite (nestedUrl_absent _ _ Hnone).
  - intros Hflat c Hc. destruct (mapFeature_urls f c Hc) as (_ & _ & Hweb).
    rewrite Hweb, (rawWebUrl_fallback _ Hflat). split.
    + intros fields s Hget Hurl Hs.
      rewrite (nestedUrl_accepts _ _ fields s Hget Hurl). unfold optionalUrl. simpl.
      apply nonEmpty_true in Hs. now rewrite Hs.
    + intros Hnone. now rewrite (nestedUrl_absent _ _ Hnone).
  - intros key g. apply nestedUrl_exact_key.
Qed.

Lemma C10_nested_fallback_witness :
  startsWith "http" "/img/cam7.jpg" = false
  /\ (exists c, mapFeature Samples.nestedRelative = Some c
                /\ imageurl c = mkUrl (VStr "/img/cam7.jpg")
                /\ video_url c = Some (mkUrl (VStr "rtsp://x/7"))
                /\ web_url c = Some (mkUrl (VStr "cam7.html")))
  /\ get (properties Samples.nestedOtherCase) "ImageURL"
     = Some (VObj [("url", VStr "http://x/img.jpg")])
  /\ mapFeature Samples.nestedOtherCase = None.
Proof.
  pose proof (C10_nested_fallback Samples.nestedRelative) as (Himg & Hvid & Hweb & _).
  split; [reflexivity|]. split.
  - destruct (proj1 (Himg eq_refl) [("url", VStr "/img/cam7.jpg")] "/img/cam7.jpg")
      as (c & Hc & Hi); try reflexivity; try discriminate.
    exists c. split; [exact Hc|]. split; [exact Hi|]. split.
    + apply (proj1 (Hvid eq_refl c Hc) [("url", VStr "rtsp://x/7")]);
        try reflexivity; discriminate.
    + apply (proj1 (Hweb eq_refl c Hc) [("url", VStr "cam7.html")]);
        try reflexivity; discriminate.
  - split; [reflexivity|].
    apply (proj2 (proj1 (C10_nested_fallback Samples.nestedOtherCase) eq_refl)).
    reflexivity.
Defined.

(** The three urls of a feature that has only nested objects, none with an
    [http] prefix; and the feature whose nested object sits under [ImageURL]. *)
Example nestedRelative_record :
  mapFeature Samples.nestedRelative =
  Some {| cameralabel := "Camera ";
          imageurl := mkUrl (VStr "/img/cam7.jpg");
          video_url := Some (mkUrl (VStr "rtsp://x/7"));
          web_url := Some (mkUrl (VStr "cam7.html"));
          x_coord := "-122.33"; y_coord := "47.6";
          location := Some (mkLocation "47.6" "-122.33") |}.
Proof. reflexivity. Qed.

Example nestedOtherCase_dropped : mapFeature Samples.nestedOtherCase = None.
Proof. reflexivity. Qed.

Example fifthAve_record :
  mapFeature Samples.fifthAve =
  Some {| cameralabel := "5th Ave";
          imageurl := mkUrl (VStr "http://x/img.jpg");
          video_url := None; web_url := None;
          x_coord := "-122.33"; y_coord := "47.6";
          location := Some (mkLocation "47.6" "-122.33") |}.
Proof. reflexivity. Qed.

End ArcGISFacts.

(* ================================================================== *)
(** ** Facts about the marker placement *)

Module MapViewFacts.
Import Js Types MapView MapViewSpec.
Local Open Scope list_scope.

Lemma parseFloat_empty : parseFloat "" = FNaN.
Proof. reflexivity. Qed.

Lemma parsesNumber_nonEmpty (s : string) :
  parsesNumber s = true -> nonEmpty s = true.
Proof. destruct s; [discriminate | reflexivity]. Qed.

Lemma parsesFinite_parsesNumber (s : string) :
  parsesFinite s = true -> parsesNumber s = true.
Proof.
  unfold parsesFinite, parsesNumber. now destruct (parseFloat s).
Qed.

(** The two emptiness tests of the filter add nothing to the two NaN tests. *)
Lemma isValid_locatable (c : TrafficCamera) : isValid c = locatable c.
Proof.
  unfold isValid, locatable. destruct (location c) as [loc|]; [|reflexivity].
  destruct (parsesNumber (latitude loc)) eqn:Elat.
  - destruct (parsesNumber (longitude loc)) eqn:Elng.
    + rewrite (parsesNumber_nonEmpty _ Elat), (parsesNumber_nonEmpty _ Elng).
      unfold parsesNumber in Elat, Elng. now rewrite Elat, Elng.
    + unfold parsesNumber in Elng. rewrite Elng. simpl.
      now rewrite !andb_false_r.
  - unfold parsesNumber in Elat. rewrite Elat. simpl.
    now rewrite andb_false_r.
Qed.

Lemma finitelyLocated_locatable (c : TrafficCamera) :
  finitelyLocated c = true -> locatable c = true.
Proof.
  unfold finitelyLocated, locatable. destruct (location c) as [loc|]; [|discriminate].
  intros H. apply andb_true_iff in H as [H1 H2].
  now rewrite (parsesFinite_parsesNumber _ H1), (parsesFinite_parsesNumber _ H2).
Qed.

(** A record the filter drops changes nothing for the others. *)
Lemma onLoad_skips_unparsable (before after : list TrafficCamera) (c : TrafficCamera) :
  locatable c = false ->
  onLoad (before ++ c :: after) = onLoad (before ++ after).
Proof.
  intros H. unfold onLoad, validCameras. rewrite !filter_app. simpl.
  now rewrite isValid_locatable, H.
Qed.

Lemma placeMarker_camera (c : TrafficCamera) (m : Marker) :
  placeMarker c = inl m -> camera m = c.
Proof.
  unfold placeMarker. destruct (location c); [|discriminate].
  destruct (MapLibre.addMarker _ _); try discriminate.
  now intros [= <-].
Qed.

(** The handler returns when every record the filter keeps gets its marker;
    the markers are then those records, in order. *)
Lemma forEachMarker_returns (valid : list TrafficCamera) :
  Forall (fun c => exists m, placeMarker c = inl m) valid ->
  ending (forEachMarker valid) = Returned
  /\ map camera (markers (forEachMarker valid)) = valid.
Proof.
  induction 1 as [|c valid (m & Em) _ (E & Hmap)]; simpl; [now split|].
  rewrite Em. simpl. split; [exact E|].
  now rewrite Hmap, (placeMarker_camera _ _ Em).
Qed.

(** The handler is left at the first kept record that [setLngLat] refuses:
    the records before it have their markers, that record and all that follow
    have none. *)
Lemma forEachMarker_throws (before after : list TrafficCamera) (c : TrafficCamera) :
  Forall (fun c => exists m, placeMarker c = inl m) before ->
  placeMarker c = inr Threw ->
  ending (forEachMarker (before ++ c :: after)) = Threw
  /\ map camera (markers (forEachMarker (before ++ c :: after))) = before.
Proof.
  intros Hbefore Hc.
  induction Hbefore as [|b before (m & Em) _ (E & Hmap)]; simpl.
  - rewrite Hc. now split.
  - rewrite Em. simpl. split; [exact E|].
    now rewrite Hmap, (placeMarker_camera _ _ Em).
Qed.

(** A latitude that the filter lets through and [setLngLat] refuses. *)
Lemma out_of_range_is_kept_and_refused (c : TrafficCamera) (loc : Location) :
  location c = Some loc ->
  parsesNumber (latitude loc) = true ->
  parsesNumber (longitude loc) = true ->
  MapLibre.latitudeOutOfRange (parseFloat (latitude loc)) = true ->
  isValid c = true /\ placeMarker c = inr Threw.
Proof.
  intros Hloc Hlat Hlng Hout. split.
  - rewrite isValid_locatable. unfold locatable. now rewrite Hloc, Hlat, Hlng.
  - unfold placeMarker, MapLibre.addMarker, MapLibre.LngLat. rewrite Hloc, Hout.
    now destruct (isNaN _ || isNaN _).
Qed.

(** C9, on the code.  A record whose latitude reads [Infinity] does not parse
    to a finite number, yet the filter keeps it ([parseFloat] gives a Number
    that is not NaN); [setLngLat] then throws on it, and the exception leaves
    [forEach]: the record before it has its marker, the records after it,
    whose coordinates are finite, get none.  The same happens with the
    finite latitude [91].  A record whose latitude does not parse at all is
    skipped and the others keep their markers. *)
Theorem C9_bad_latitude_stops_the_placement :
  (finitelyLocated Samples.atInfinity = false
   /\ isValid Samples.atInfinity = true
   /\ finitelyLocated MoreSamples.alder = true
   /\ onLoad [Samples.pike; Samples.atInfinity; MoreSamples.alder]
      = mkLoadResult Threw
          [mkMarker (FDecimal true 12234 (-2), FDecimal false 4761 (-2))
                    Samples.pike])
  /\ (finitelyLocated MoreSamples.north91 = true
      /\ isValid MoreSamples.north91 = true
      /\ onLoad [Samples.pike; MoreSamples.north91; MoreSamples.alder]
         = mkLoadResult Threw
             [mkMarker (FDecimal true 12234 (-2), FDecimal false 4761 (-2))
                       Samples.pike])
  /\ onLoad [Samples.pike; Samples.unparsable; MoreSamples.alder]
     = mkLoadResult Returned
         [mkMarker (FDecimal true 12234 (-2), FDecimal false 4761 (-2))
                   Samples.pike;
          mkMarker (FDecimal true 12232 (-2), FDecimal false 476 (-1))
                   MoreSamples.alder].
Proof. repeat split. Qed.

End MapViewFacts.

(* ================================================================== *)
(** ** Facts about the fetchers *)

Module NetFacts.
Import Js Types Net NetSpec.
Local Open Scope list_scope.

(** What the timer of the second copy does cover: no answer within
    [FETCH_TIMEOUT_MS] aborts the request and rejects. *)
Lemma fetchCameras_aborts_without_headers (x : Exchange (list TrafficCamera)) :
  match head x with
  | Some (t, _) => (SocrataApiTimeout.FETCH_TIMEOUT_MS <=? t)%N = true
  | None => True
  end ->
  SocrataApiTimeout.fetchCameras x = timedOut 10000%N.
Proof.
  unfold SocrataApiTimeout.fetchCameras.
  destruct (head x) as [[t h]|]; [|reflexivity].
  intros H. apply N.leb_le in H.
  destruct (N.ltb_spec t SocrataApiTimeout.FETCH_TIMEOUT_MS); [lia | reflexivity].
Qed.

(** Both copies reject a response whose status is not a success. *)
Lemma fetchCameras_rejects_bad_status (x : Exchange (list TrafficCamera)) :
  notSuccessful x = true ->
  failed (SocrataApi.fetchCameras x) = true
  /\ failed (SocrataApiTimeout.fetchCameras x) = true.
Proof.
  unfold notSuccessful, SocrataApi.fetchCameras, SocrataApiTimeout.fetchCameras.
  destruct (head x) as [[t [|ok st txt]]|]; try discriminate.
  intros ->. simpl. split; [reflexivity|].
  now destruct (t <? SocrataApiTimeout.FETCH_TIMEOUT_MS)%N.
Qed.

(** The copy without a timer never cancels, and waits for ever on a server that
    does not answer. *)
Lemma plain_fetchCameras_never_aborts (x : Exchange (list TrafficCamera)) :
  abortedAt (SocrataApi.fetchCameras x) = None
  /\ (head x = None -> SocrataApi.fetchCameras x = pending).
Proof.
  unfold SocrataApi.fetchCameras, SocrataApi.readBody.
  destruct (head x) as [[t [|ok st txt]]|]; simpl; try (split; [reflexivity|congruence]).
  destruct ok; simpl; [|split; [reflexivity|congruence]].
  destruct (body x) as [[d [data|]]|]; split; solve [reflexivity | congruence].
Qed.

(** The copy with the timer, once the headers of a success are there in time:
    the outcome is that of the body, however late, and nothing is aborted. *)
Lemma fetchCameras_body_unguarded (x : Exchange (list TrafficCamera))
      (t : N) (status : N) (statusText : string) :
  head x = Some (t, Headers true status statusText) ->
  (t < SocrataApiTimeout.FETCH_TIMEOUT_MS)%N ->
  SocrataApiTimeout.fetchCameras x = SocrataApi.readBody t (body x)
  /\ abortedAt (SocrataApiTimeout.fetchCameras x) = None.
Proof.
  intros Hhead Ht. unfold SocrataApiTimeout.fetchCameras. rewrite Hhead.
  apply N.ltb_lt in Ht. rewrite Ht. simpl. split; [reflexivity|].
  unfold SocrataApi.readBody. now destruct (body x) as [[d [data|]]|].
Qed.

(** All the ways the copy with the timer rejects. *)
Lemma fetchCameras_failure_cases (x : Exchange (list TrafficCamera)) :
  failed (SocrataApiTimeout.fetchCameras x) = true <->
  match head x with
  | None => True
  | Some (t, h) =>
      (SocrataApiTimeout.FETCH_TIMEOUT_MS <= t)%N
      \/ match h with
         | NetworkFailure => True
         | Headers ok _ _ =>
             ok = false \/ exists d, body x = Some (d, Malformed)
         end
  end.
Proof.
  unfold SocrataApiTimeout.fetchCameras, SocrataApi.readBody, failed.
  destruct (head x) as [[t h]|]; simpl; [|tauto].
  destruct (N.ltb_spec t SocrataApiTimeout.FETCH_TIMEOUT_MS) as [Hlt|Hge]; simpl;
    [|tauto].
  destruct h as [|ok st txt]; simpl; [tauto|].
  destruct ok; simpl; [|split; auto].
  destruct (body x) as [[d [data|]]|]; simpl; split; intros H;
    try discriminate; eauto;
    destruct H as [H|[H|[d' H]]]; try discriminate; try lia.
Qed.

(** [fetchArcGISCameras] always settles, and within its limit. *)
Lemma fetchArcGISCameras_bounded (x : Exchange ArcGIS.ArcGISGeoJSON) :
  exists t, settledAt (ArcGIS.fetchArcGISCameras x) = Some t
            /\ (t <= ArcGIS.ARCGIS_TIMEOUT_MS)%N.
Proof.
  unfold ArcGIS.fetchArcGISCameras, ArcGIS.ARCGIS_TIMEOUT_MS.
  destruct (head x) as [[t h]|]; simpl; [|exists 15000%N; split; [reflexivity|lia]].
  destruct (N.ltb_spec t 15000); [|exists 15000%N; split; [reflexivity|lia]].
  destruct h as [|ok st txt]; [exists t; split; [reflexivity|lia]|].
  destruct ok; simpl; [|exists t; split; [reflexivity|lia]].
  destruct (body x) as [[d b]|]; [|exists 15000%N; split; [reflexivity|lia]].
  destruct (N.ltb_spec (t + d) 15000); [|exists 15000%N; split; [reflexivity|lia]].
  destruct b; exists (t + d)%N; split; try reflexivity; lia.
Qed.

(** C4, on the code.  With a server that never answers, the copy of
    [fetchCameras] without a timer stays pending and aborts nothing.  With
    headers after 120 ms and a body that never ends, the copy with the 10 s
    timer stays pending as well, its timer disarmed at 120 ms; with the body
    one minute late it fulfils after 60.12 s.  On the same exchange
    [fetchArcGISCameras], which awaits the body inside [try], aborts and
    rejects at its 15 s limit. *)
Theorem C4_requests_left_running :
  (exceeds 10000 (@Samples.silent (list TrafficCamera)) = true
   /\ SocrataApi.fetchCameras Samples.silent = pending)
  /\ (exceeds 10000 (@Samples.stalledBody (list TrafficCamera)) = true
      /\ SocrataApiTimeout.fetchCameras Samples.stalledBody = pending
      /\ abortedAt (SocrataApiTimeout.fetchCameras Samples.stalledBody) = None)
  /\ (exceeds 10000 Samples.slowBody = true
      /\ SocrataApiTimeout.fetchCameras Samples.slowBody
         = fulfilled 60120 [Samples.pike])
  /\ ArcGIS.fetchArcGISCameras Samples.stalledBody = timedOut 15000.
Proof. repeat split. Qed.

(** A response that is a success and in time, and a rejection all the same:
    the body is not JSON. *)
Example garbled_body_rejects :
  notSuccessful (@Samples.garbled (list TrafficCamera)) = false
  /\ exceeds 10000 (@Samples.garbled (list TrafficCamera)) = false
  /\ SocrataApiTimeout.fetchCameras Samples.garbled = rejected 150 SyntaxError.
Proof. repeat split. Qed.

End NetFacts.

(* ================================================================== *)
(** ** Facts about the camera card *)

Module CameraCardFacts.
Import Js Types CameraCardSpec.
Local Open Scope list_scope.

(** *** Invariants of components/CameraCard.tsx *)

Lemma run_preserves (p : CameraCard.Props) (P : CameraCard.State -> Prop) :
  (forall s e s', P s -> CameraCard.step p s e = Some s' -> P s') ->
  forall events s s', P s -> CameraCard.run p s events = Some s' -> P s'.
Proof.
  intros Hstep. induction events as [|e events IH]; simpl; intros s s' Hs Hrun.
  - now injection Hrun as <-.
  - destruct (CameraCard.step p s e) as [s1|] eqn:E; [|discriminate].
    apply (IH s1); [now apply (Hstep s e) | exact Hrun].
Qed.

Lemma reachable_invariant (p : CameraCard.Props) (P : CameraCard.State -> Prop) :
  (forall now, P (CameraCard.mount p now)) ->
  (forall s e s', P s -> CameraCard.step p s e = Some s' -> P s') ->
  forall s, CameraCard.reachable p s -> P s.
Proof.
  intros Hmount Hstep s (now & events & Hrun).
  exact (run_preserves p P Hstep events _ _ (Hmount now) Hrun).
Qed.

Lemma reachable_step (p : CameraCard.Props) (s s' : CameraCard.State) (e : CameraCard.Event) :
  CameraCard.reachable p s -> CameraCard.step p s e = Some s' -> CameraCard.reachable p s'.
Proof.
  intros (now & events & Hrun) Hstep. exists now, (events ++ [e]).
  revert Hrun. generalize (CameraCard.mount p now).
  induction events as [|e0 events IH]; simpl; intros s0 Hrun.
  - injection Hrun as ->. now rewrite Hstep.
  - destruct (CameraCard.step p s0 e0); [now apply IH | discriminate].
Qed.

Lemma settle_settled (p : CameraCard.Props) (s : CameraCard.State) : settled p (CameraCard.settle p s).
Proof.
  destruct s as [iv ts il ie pl it].
  unfold settled, CameraCard.settle, CameraCard.refreshEffect, CameraCard.autoPauseEffect; simpl.
  destruct iv, pl; simpl; auto; split; auto; discriminate.
Qed.

Lemma reachable_settled (p : CameraCard.Props) (s : CameraCard.State) :
  CameraCard.reachable p s -> settled p s.
Proof.
  apply reachable_invariant.
  - intros now. apply settle_settled.
  - intros s0 e s' _. unfold CameraCard.step.
    destruct (CameraCard.enabled p s0 e); [|discriminate].
    intros H; injection H as <-. apply settle_settled.
Qed.

(** The only event that starts a stream is a click on the play button, and
    the button is there only for a camera with a stream url. *)
Lemma step_starts_stream (p : CameraCard.Props) (s s' : CameraCard.State) (e : CameraCard.Event) :
  CameraCard.isVideoPlaying s = false ->
  CameraCard.step p s e = Some s' ->
  CameraCard.isVideoPlaying s' = true ->
  e = CameraCard.PlayClicked /\ CameraCard.hasVideoUrl p = true /\ CameraCard.isInView s = true.
Proof.
  destruct s as [iv ts il ie pl it]. simpl. intros ->.
  unfold CameraCard.step, CameraCard.enabled, CameraCard.render, CameraCard.playerMounted; simpl.
  destruct e; simpl;
    repeat match goal with
    | |- context [match ?x with _ => _ end] => destruct x eqn:?; simpl
    end;
    try discriminate;
    intros H; injection H as <-;
    unfold CameraCard.settle, CameraCard.autoPauseEffect, CameraCard.refreshEffect; simpl;
    repeat match goal with
    | |- context [if ?x then _ else _] => destruct x eqn:?; simpl
    end; try discriminate; auto.
  intros _. rewrite andb_true_r in *. destruct iv; [auto | discriminate].
Qed.

Lemma step_keeps_url (p : CameraCard.Props) (s s' : CameraCard.State) (e : CameraCard.Event) :
  (CameraCard.isVideoPlaying s = true -> CameraCard.hasVideoUrl p = true) ->
  CameraCard.step p s e = Some s' ->
  CameraCard.isVideoPlaying s' = true -> CameraCard.hasVideoUrl p = true.
Proof.
  intros Hs Hstep Hs'.
  destruct (CameraCard.isVideoPlaying s) eqn:E; [now apply Hs|].
  now destruct (step_starts_stream p s s' e E Hstep Hs') as (_ & H & _).
Qed.

Lemma mount_state (p : CameraCard.Props) (now : N) :
  CameraCard.mount p now =
  CameraCard.mkState false now true false false (Some (CameraCard.refreshIntervalOf p)).
Proof. reflexivity. Qed.

Lemma reachable_playing_has_url (p : CameraCard.Props) (s : CameraCard.State) :
  CameraCard.reachable p s -> CameraCard.isVideoPlaying s = true -> CameraCard.hasVideoUrl p = true.
Proof.
  apply (reachable_invariant p
           (fun s => CameraCard.isVideoPlaying s = true -> CameraCard.hasVideoUrl p = true)).
  - intros now. rewrite mount_state. discriminate.
  - intros s0 e s'. apply step_keeps_url.
Qed.

(** *** Invariants of the second copy *)

Lemma plain_run_preserves (p : CameraCardPlain.Props) (P : CameraCardPlain.State -> Prop) :
  (forall s e s', P s -> CameraCardPlain.step p s e = Some s' -> P s') ->
  forall events s s', P s -> CameraCardPlain.run p s events = Some s' -> P s'.
Proof.
  intros Hstep. induction events as [|e events IH]; simpl; intros s s' Hs Hrun.
  - now injection Hrun as <-.
  - destruct (CameraCardPlain.step p s e) as [s1|] eqn:E; [|discriminate].
    apply (IH s1); [now apply (Hstep s e) | exact Hrun].
Qed.

Lemma plain_step_keeps_url (p : CameraCardPlain.Props) (s s' : CameraCardPlain.State) (e : CameraCardPlain.Event) :
  (CameraCardPlain.isVideoPlaying s = true -> CameraCardPlain.hasVideoUrl p = true) ->
  CameraCardPlain.step p s e = Some s' ->
  CameraCardPlain.isVideoPlaying s' = true -> CameraCardPlain.hasVideoUrl p = true.
Proof.
  destruct s as [ts il ie pl it]. simpl.
  unfold CameraCardPlain.step, CameraCardPlain.enabled, CameraCardPlain.render; simpl.
  destruct (CameraCardPlain.hasVideoUrl p); [auto|].
  intros Hs. destruct pl; [now discriminate Hs|].
  destruct e; simpl;
    repeat match goal with
    | |- context [match ?x with _ => _ end] => destruct x eqn:?; simpl
    end;
    try discriminate;
    intros H; injection H as <-; simpl; auto.
Qed.

Lemma plain_reachable_playing_has_url (p : CameraCardPlain.Props) (s : CameraCardPlain.State) :
  CameraCardPlain.reachable p s -> CameraCardPlain.isVideoPlaying s = true -> CameraCardPlain.hasVideoUrl p = true.
Proof.
  intros (now & events & Hrun).
  refine (plain_run_preserves p
            (fun s => CameraCardPlain.isVideoPlaying s = true -> CameraCardPlain.hasVideoUrl p = true)
            (fun s0 e s1 => plain_step_keeps_url p s0 s1 e)
            events (CameraCardPlain.mount p now) s _ Hrun).
  simpl. auto.
Qed.


(** *** The refresh timer *)






(** *** Where the card starts *)

(** components/CameraCard.tsx: the card starts on the still image, whatever
    the camera offers. *)
Lemma card_starts_on_snapshot (p : CameraCard.Props) (now : N) :
  streaming (CameraCard.mount p now) = false
  /\ CameraCard.media (CameraCard.render p (CameraCard.mount p now)) = CameraCard.Img (bustedUrl p now).
Proof. split; reflexivity. Qed.

(** components/CameraCard.tsx: a card that is not streaming starts to stream
    only on a click on the play button, which only a camera with a stream
    url has. *)
Lemma card_streams_on_click_only (p : CameraCard.Props) (s s' : CameraCard.State) (e : CameraCard.Event) :
  CameraCard.reachable p s ->
  streaming s = false -> CameraCard.step p s e = Some s' -> streaming s' = true ->
  e = CameraCard.PlayClicked /\ CameraCard.hasVideoUrl p = true.
Proof.
  intros _ Hs Hstep Hs'.
  destruct (step_starts_stream p s s' e Hs Hstep Hs') as (He & Hurl & _). auto.
Qed.

(** The second copy: a camera with a stream url streams from the mount on. *)
Lemma plain_card_starts_streaming (p : CameraCardPlain.Props) (now : N) :
  CameraCardPlain.hasVideoUrl p = true ->
  streamingPlain (CameraCardPlain.mount p now) = true
  /\ CameraCardPlain.media (CameraCardPlain.render p (CameraCardPlain.mount p now))
     = CameraCard.VideoPlayer (CameraCardPlain.videoUrl p) (bustedUrl p now)
  /\ CameraCardPlain.interval (CameraCardPlain.mount p now) = None.
Proof.
  intros H. unfold streamingPlain, CameraCardPlain.mount, CameraCardPlain.render, CameraCardPlain.refreshEffect.
  simpl. rewrite H. simpl. repeat split.
Qed.






(** *** A camera without a stream url *)

Lemma card_media_without_player (p : CameraCard.Props) (s : CameraCard.State) :
  CameraCard.playerMounted p s = false ->
  forall u poster, CameraCard.media (CameraCard.render p s) <> CameraCard.VideoPlayer u poster.
Proof.
  intros H u poster. unfold CameraCard.render. simpl. rewrite H.
  destruct (CameraCard.hasImgError s); discriminate.
Qed.

(** C8.  For a camera without a stream url ([video_url] missing, or its
    [url] empty), in every state either copy of the card can reach after any
    sequence of events: [isVideoPlaying] is false, no play button is
    rendered, a click on it is not an event of the card, and the media slot
    does not hold the video player. *)
Theorem C8_no_stream_url_never_streams (p : CameraCard.Props)
  (Hno : CameraCard.hasVideoUrl p = false) :
  (forall s, CameraCard.reachable p s ->
     streaming s = false
     /\ CameraCard.playButton (CameraCard.render p s) = false
     /\ CameraCard.step p s CameraCard.PlayClicked = None
     /\ forall u poster, CameraCard.media (CameraCard.render p s) <> CameraCard.VideoPlayer u poster)
  /\ (forall s, CameraCardPlain.reachable p s ->
        streamingPlain s = false
        /\ CameraCardPlain.playButton (CameraCardPlain.render p s) = false
        /\ CameraCardPlain.step p s CameraCardPlain.PlayClicked = None
        /\ forall u poster, CameraCardPlain.media (CameraCardPlain.render p s) <> CameraCard.VideoPlayer u poster).
Proof.
  split; intros s Hreach.
  - assert (Hidle : CameraCard.isVideoPlaying s = false).
    { destruct (CameraCard.isVideoPlaying s) eqn:E; [|reflexivity].
      rewrite (reachable_playing_has_url p s Hreach E) in Hno. discriminate. }
    assert (Hbutton : CameraCard.playButton (CameraCard.render p s) = false)
      by (simpl; now rewrite Hno).
    split; [exact Hidle|]. split; [exact Hbutton|]. split.
    + unfold CameraCard.step, CameraCard.enabled. now rewrite Hbutton.
    + apply card_media_without_player. unfold CameraCard.playerMounted. now rewrite Hidle.
  - assert (Hidle : CameraCardPlain.isVideoPlaying s = false).
    { destruct (CameraCardPlain.isVideoPlaying s) eqn:E; [|reflexivity].
      pose proof (plain_reachable_playing_has_url p s Hreach E) as Hurl.
      unfold CameraCardPlain.hasVideoUrl in Hurl. congruence. }
    assert (Hbutton : CameraCardPlain.playButton (CameraCardPlain.render p s) = false).
    { simpl. unfold CameraCardPlain.hasVideoUrl. now rewrite Hno. }
    split; [exact Hidle|]. split; [exact Hbutton|]. split.
    + unfold CameraCardPlain.step, CameraCardPlain.enabled. now rewrite Hbutton.
    + intros u poster. unfold CameraCardPlain.render. simpl. rewrite Hidle. simpl.
      rewrite andb_true_r. destruct (CameraCardPlain.hasError s); discriminate.
Qed.

Lemma C8_no_stream_url_never_streams_witness :
  CameraCard.hasVideoUrl Samples.withoutStream = false
  /\ CameraCard.run Samples.withoutStream (CameraCard.mount Samples.withoutStream 1000)
              [CameraCard.Intersect true; CameraCard.IntervalFired 31000; CameraCard.ImgLoad]
     = Some (CameraCard.mkState true 31000 false false false (Some 30000%N))
  /\ streaming (CameraCard.mkState true 31000 false false false (Some 30000%N)) = false.
Proof.
  split; [reflexivity|]. split; [reflexivity|].
  apply (proj1 (C8_no_stream_url_never_streams Samples.withoutStream eq_refl)).
  exists 1000%N, [CameraCard.Intersect true; CameraCard.IntervalFired 31000; CameraCard.ImgLoad].
  reflexivity.
Defined.

End CameraCardFacts.

(* ================================================================== *)
(** ** Further facts about the ArcGIS normaliser *)

Module ArcGISMore.
Import Js JsText Types Net ArcGIS ArcGISSpec MoreSpec.
Local Open Scope list_scope.

Lemma findKey_In (props : object) (c key : string) :
  findKey props c = Some key ->
  toLowerCase key = toLowerCase c /\ exists v, get props key = Some v.
Proof.
  intros H. pose proof (ArcGISFacts.findKey_spec props c) as Hs.
  rewrite H in Hs. destruct Hs as [Hin Hlow]. split; [exact Hlow|].
  unfold keys in Hin. apply in_map_iff in Hin as ([k v] & <- & Hin).
  now apply (ArcGISFacts.In_get _ _ v).
Qed.

Lemma urlAt_source (props : object) (c v : string) :
  urlAt props c = Some v ->
  exists key, In (key, VStr v) props /\ toLowerCase key = toLowerCase c.
Proof.
  unfold urlAt. destruct (findKey props c) as [key|] eqn:E; [|discriminate].
  destruct (findKey_In _ _ _ E) as [Hlow _].
  destruct (nonEmpty key); [|discriminate].
  destruct (get props key) as [[| | |val| |]|] eqn:G; try discriminate.
  destruct (startsWith "http" val); [|discriminate].
  intros H; injection H as <-. exists key. split; [now apply ArcGISFacts.get_In | exact Hlow].
Qed.

Lemma stringAt_source (props : object) (c v : string) :
  stringAt props c = Some v ->
  exists key, In (key, VStr v) props /\ toLowerCase key = toLowerCase c.
Proof.
  unfold stringAt. destruct (findKey props c) as [key|] eqn:E; [|discriminate].
  destruct (findKey_In _ _ _ E) as [Hlow _].
  destruct (nonEmpty key); [|discriminate].
  destruct (get props key) as [[| | |val| |]|] eqn:G; try discriminate.
  destruct (nonEmpty val); [|discriminate].
  intros H; injection H as <-. exists key. split; [now apply ArcGISFacts.get_In | exact Hlow].
Qed.

(** X1.  [findUrl] returns either the empty string or a string that starts
    with [http] and is the value of a property whose key is one of the
    candidates up to letter case; it never makes a url up and never returns a
    value of another type. *)
Theorem X1_findUrl_result (props : object) (candidates : list string) :
  findUrl props candidates = ""
  \/ (startsWith "http" (findUrl props candidates) = true
      /\ exists c key,
           In c candidates
           /\ In (key, VStr (findUrl props candidates)) props
           /\ toLowerCase key = toLowerCase c).
Proof.
  induction candidates as [|c cands IH]; simpl; [now left|].
  destruct (urlAt props c) as [v|] eqn:E.
  - right. split; [now apply (ArcGISFacts.urlAt_http props c)|].
    destruct (urlAt_source _ _ _ E) as (key & Hin & Hlow).
    exists c, key. auto.
  - destruct IH as [IH|(Hhttp & c' & key & Hc & Hin & Hlow)]; [now left|].
    right. split; [exact Hhttp|]. exists c', key. auto.
Qed.

(** X2.  [findString] returns either the empty string or a non-empty string
    that is the value of a property whose key is one of the candidates up to
    letter case. *)
Theorem X2_findString_result (props : object) (candidates : list string) :
  findString props candidates = ""
  \/ (nonEmpty (findString props candidates) = true
      /\ exists c key,
           In c candidates
           /\ In (key, VStr (findString props candidates)) props
           /\ toLowerCase key = toLowerCase c).
Proof.
  induction candidates as [|c cands IH]; simpl; [now left|].
  destruct (stringAt props c) as [v|] eqn:E.
  - right. split; [now apply (ArcGISFacts.stringAt_nonEmpty props c)|].
    destruct (stringAt_source _ _ _ E) as (key & Hin & Hlow).
    exists c, key. auto.
  - destruct IH as [IH|(Hne & c' & key & Hc & Hin & Hlow)]; [now left|].
    right. split; [exact Hne|]. exists c', key. auto.
Qed.

(** A scan over an object with no matching key returns nothing. *)
Lemma findString_no_key (props : object) (candidates : list string) :
  (forall c k, In c candidates -> In k (keys props) ->
               toLowerCase k <> toLowerCase c) ->
  findString props candidates = "" /\ findUrl props candidates = "".
Proof.
  intros H. split.
  - apply ArcGISFacts.findString_empty. apply Forall_forall. intros c Hc.
    unfold stringAt. destruct (findKey props c) as [key|] eqn:E; [|reflexivity].
    pose proof (ArcGISFacts.findKey_spec props c) as Hs. rewrite E in Hs.
    destruct Hs as [Hin Hlow]. now destruct (H c key Hc Hin).
  - apply ArcGISFacts.findUrl_empty. apply Forall_forall. intros c Hc.
    unfold urlAt. destruct (findKey props c) as [key|] eqn:E; [|reflexivity].
    pose proof (ArcGISFacts.findKey_spec props c) as Hs. rewrite E in Hs.
    destruct Hs as [Hin Hlow]. now destruct (H c key Hc Hin).
Qed.

Lemma or_string_nonEmpty (a b : string) :
  nonEmpty b = true -> nonEmpty (or_string a b) = true.
Proof. unfold or_string. destruct (nonEmpty a) eqn:E; auto. Qed.

Lemma optionalUrl_truthy (raw : value) (u : UrlRef) :
  optionalUrl raw = Some u -> truthy (url u) = true.
Proof.
  unfold optionalUrl. destruct (truthy raw) eqn:E; [|discriminate].
  intros H; injection H as <-. exact E.
Qed.

(** X3.  The label of an emitted record is never empty: it is the first
    usable label candidate, and when the properties offer none it is
    ["Camera "] followed by the feature id (by nothing when the feature has
    no id). *)
Theorem X3_label_is_never_empty (f : ArcGISFeature) (c : TrafficCamera)
  (Hc : mapFeature f = Some c) :
  nonEmpty (cameralabel c) = true
  /\ (findString (properties f) labelCandidates = "" ->
      cameralabel c = ("Camera " ++ idText f)%string)
  /\ (findString (properties f) labelCandidates <> "" ->
      cameralabel c = findString (properties f) labelCandidates).
Proof.
  rewrite (ArcGISFacts.mapFeature_label f c Hc). unfold resolveLabel, or_string.
  split; [|split].
  - destruct (nonEmpty (findString (properties f) labelCandidates)) eqn:E;
      [exact E | reflexivity].
  - intros ->. reflexivity.
  - intros H. apply ArcGISFacts.nonEmpty_true in H. now rewrite H.
Qed.

Lemma X3_label_is_never_empty_witness :
  mapFeature MoreSamples.unlabelled = Some MoreSamples.unlabelledCamera
  /\ nonEmpty (cameralabel MoreSamples.unlabelledCamera) = true.
Proof.
  split; [reflexivity|].
  exact (proj1 (X3_label_is_never_empty MoreSamples.unlabelled
                  MoreSamples.unlabelledCamera eq_refl)).
Defined.

(** X4.  Every emitted record is complete: it has a location whose latitude
    and longitude are not empty, display coordinates that are not empty, and
    its stream and detail urls are either left out or hold a non-empty
    value; whether they are left out depends only on [rawVideoUrl] and
    [rawWebUrl], and never on whether the record is emitted. *)
Theorem X4_emitted_record_is_complete (f : ArcGISFeature) (c : TrafficCamera)
  (Hc : mapFeature f = Some c) :
  (exists loc, location c = Some loc
               /\ nonEmpty (latitude loc) = true
               /\ nonEmpty (longitude loc) = true)
  /\ nonEmpty (x_coord c) = true
  /\ nonEmpty (y_coord c) = true
  /\ App.hasVideo c = truthy (rawVideoUrl (properties f))
  /\ (forall u, video_url c = Some u -> truthy (url u) = true)
  /\ (forall u, web_url c = Some u -> truthy (url u) = true).
Proof.
  destruct (ArcGISFacts.mapFeature_cases f) as [[E _]|(Hlat & Hlng & _ & E)];
    rewrite E in Hc; [discriminate|].
  injection Hc as <-. simpl.
  split; [eexists; split; [reflexivity|split; assumption]|].
  split; [now apply or_string_nonEmpty|].
  split; [now apply or_string_nonEmpty|].
  split; [|split].
  - unfold App.hasVideo, optionalUrl. simpl.
    now destruct (truthy (rawVideoUrl (properties f))) eqn:Ev.
  - apply optionalUrl_truthy.
  - apply optionalUrl_truthy.
Qed.

Lemma X4_emitted_record_is_complete_witness :
  mapFeature Samples.nestedRelative <> None
  /\ exists c, mapFeature Samples.nestedRelative = Some c
               /\ nonEmpty (x_coord c) = true.
Proof.
  split; [discriminate|]. eexists. split; [reflexivity|].
  exact (proj1 (proj2 (X4_emitted_record_is_complete Samples.nestedRelative _ eq_refl))).
Defined.

Lemma get_key_In (o : object) (k : string) (v : value) :
  get o k = Some v -> In k (keys o).
Proof.
  intros H. apply ArcGISFacts.get_In in H. unfold keys.
  apply in_map_iff. now exists (k, v).
Qed.

(** X5.  A feature none of whose property keys spells a snapshot candidate
    (in any letter case) is never emitted, whatever its id, geometry and
    other properties; in particular a feature with no properties at all. *)
Theorem X5_no_snapshot_key_no_record (f : ArcGISFeature)
  (Hkeys : forall c k, In c imageCandidates -> In k (keys (properties f)) ->
                       toLowerCase k <> toLowerCase c) :
  mapFeature f = None.
Proof.
  destruct (findString_no_key _ _ Hkeys) as [_ Hflat].
  destruct (ArcGISFacts.mapFeature_cases f) as [[E _]|(_ & _ & Himg & _)]; [exact E|].
  rewrite (ArcGISFacts.rawImageUrl_fallback _ Hflat) in Himg.
  unfold nestedUrl in Himg.
  destruct (get (properties f) "imageurl") as [v|] eqn:G; [|discriminate].
  exfalso. apply (Hkeys "imageurl" "imageurl"); [simpl; auto | | reflexivity].
  now apply (get_key_In _ _ v).
Qed.

Lemma X5_no_snapshot_key_no_record_witness :
  mapFeature (mkFeature None Samples.seattle [("name", VStr "Pike St")]) = None
  /\ mapFeature (mkFeature None None []) = None.
Proof.
  split; apply X5_no_snapshot_key_no_record; simpl.
  - intros c k Hc [<-|[]].
    destruct Hc as [<-|[<-|[<-|[<-|[<-|[]]]]]]; discriminate.
  - intros c k _ [].
Defined.

End ArcGISMore.

(* ================================================================== *)
(** ** Further facts about the fetchers *)

Module NetMore.
Import Js Types Net NetSpec.
Local Open Scope list_scope.

(** X6.  [fetchArcGISCameras] never stays pending.  When the exchange is not
    over 15 s after the call it aborts the request and rejects at 15 s;
    otherwise it settles before 15 s and aborts nothing. *)
Theorem X6_arcgis_fetch_is_bounded (x : Exchange ArcGIS.ArcGISGeoJSON) :
  if exceeds 15000 x
  then ArcGIS.fetchArcGISCameras x = timedOut 15000
  else abortedAt (ArcGIS.fetchArcGISCameras x) = None
       /\ exists t, settledAt (ArcGIS.fetchArcGISCameras x) = Some t
                    /\ (t < 15000)%N.
Proof.
  unfold exceeds, ArcGIS.fetchArcGISCameras, ArcGIS.ARCGIS_TIMEOUT_MS.
  destruct (head x) as [[t [|ok st txt]]|]; [| |reflexivity].
  - destruct (N.leb_spec 15000 t) as [Hle|Hlt].
    + apply N.ltb_ge in Hle. now rewrite Hle.
    + pose proof Hlt as Hlt'. apply N.ltb_lt in Hlt'. rewrite Hlt'.
      split; [reflexivity|]. exists t. auto.
  - destruct (N.leb_spec 15000 t) as [Hle|Hlt]; simpl.
    + apply N.ltb_ge in Hle. now rewrite Hle.
    + pose proof Hlt as Hlt'. apply N.ltb_lt in Hlt'. rewrite Hlt'.
      destruct ok; simpl; [|split; [reflexivity|exists t; auto]].
      destruct (body x) as [[d b]|]; [|reflexivity].
      destruct (N.leb_spec 15000 (t + d)) as [Hle2|Hlt2].
      * apply N.ltb_ge in Hle2. now rewrite Hle2.
      * pose proof Hlt2 as Hlt2'. apply N.ltb_lt in Hlt2'. rewrite Hlt2'.
        destruct b; (split; [reflexivity|exists (t + d)%N; auto]).
Qed.

(** X7.  Pass-through: each copy of [fetchCameras] fulfils with exactly the
    list that the body of a successful response parses to, and fulfils in no
    other case; the copy with the timer needs the headers before 10 s. *)
Theorem X7_socrata_pass_through (x : Exchange (list TrafficCamera))
        (data : list TrafficCamera) :
  (outcome (SocrataApi.fetchCameras x) = Fulfilled data <->
   exists t status statusText d,
     head x = Some (t, Headers true status statusText)
     /\ body x = Some (d, Json data))
  /\ (outcome (SocrataApiTimeout.fetchCameras x) = Fulfilled data <->
      exists t status statusText d,
        head x = Some (t, Headers true status statusText)
        /\ (t < SocrataApiTimeout.FETCH_TIMEOUT_MS)%N
        /\ body x = Some (d, Json data)).
Proof.
  unfold SocrataApi.fetchCameras, SocrataApiTimeout.fetchCameras, SocrataApi.readBody.
  split; split.
  - destruct (head x) as [[t [|[] st txt]]|]; simpl; try discriminate.
    destruct (body x) as [[d [data'|]]|]; simpl; try discriminate.
    intros H; injection H as <-. now exists t, st, txt, d.
  - intros (t & st & txt & d & -> & ->). reflexivity.
  - destruct (head x) as [[t h]|]; simpl; [|discriminate].
    destruct (N.ltb_spec t SocrataApiTimeout.FETCH_TIMEOUT_MS) as [Hlt|Hge];
      [|discriminate].
    destruct h as [|[] st txt]; simpl; try discriminate.
    destruct (body x) as [[d [data'|]]|]; simpl; try discriminate.
    intros H; injection H as <-. now exists t, st, txt, d.
  - intros (t & st & txt & d & -> & Hlt & ->).
    apply N.ltb_lt in Hlt. now rewrite Hlt.
Qed.

Lemma X7_socrata_pass_through_witness :
  outcome (SocrataApiTimeout.fetchCameras MoreSamples.prompt)
  = Fulfilled [Samples.pike].
Proof.
  apply (proj2 (X7_socrata_pass_through MoreSamples.prompt [Samples.pike])).
  exists 120%N, 200%N, "OK", 30%N. repeat split.
Defined.

(** X8.  When the answer (headers or a network failure) arrives before 10 s,
    the copy with the timer aborts nothing, settles when the copy without a
    timer settles and fails when it fails; unless the status is not a
    success (the two error messages differ) the two runs are the same. *)
Theorem X8_timer_copy_agrees_when_in_time (x : Exchange (list TrafficCamera))
        (t : N) (h : Head)
  (Hhead : head x = Some (t, h))
  (Ht : (t < SocrataApiTimeout.FETCH_TIMEOUT_MS)%N) :
  abortedAt (SocrataApiTimeout.fetchCameras x) = None
  /\ settledAt (SocrataApiTimeout.fetchCameras x) = settledAt (SocrataApi.fetchCameras x)
  /\ failed (SocrataApiTimeout.fetchCameras x) = failed (SocrataApi.fetchCameras x)
  /\ (notSuccessful x = false ->
      SocrataApiTimeout.fetchCameras x = SocrataApi.fetchCameras x).
Proof.
  unfold SocrataApiTimeout.fetchCameras, SocrataApi.fetchCameras, notSuccessful.
  rewrite Hhead. apply N.ltb_lt in Ht. rewrite Ht.
  destruct h as [|[] st txt]; simpl.
  - repeat split.
  - unfold SocrataApi.readBody.
    destruct (body x) as [[d [data|]]|]; repeat split.
  - repeat split. discriminate.
Qed.

Lemma X8_timer_copy_agrees_when_in_time_witness :
  (head MoreSamples.prompt = Some (120%N, Headers true 200 "OK")
   /\ (120 < SocrataApiTimeout.FETCH_TIMEOUT_MS)%N)
  /\ SocrataApiTimeout.fetchCameras MoreSamples.prompt
     = SocrataApi.fetchCameras MoreSamples.prompt.
Proof.
  split; [split; reflexivity|].
  apply (X8_timer_copy_agrees_when_in_time MoreSamples.prompt 120
           (Headers true 200 "OK")); reflexivity.
Defined.

(** X9.  The copy of [fetchCameras] with the timer aborts exactly when no
    answer has arrived 10 s after the call, and then rejects at 10 s; with an
    answer before that it never aborts and never settles before the answer. *)
Theorem X9_abort_only_without_answer (x : Exchange (list TrafficCamera)) :
  match head x with
  | None => SocrataApiTimeout.fetchCameras x = timedOut 10000
  | Some (t, _) =>
      if (10000 <=? t)%N
      then SocrataApiTimeout.fetchCameras x = timedOut 10000
      else abortedAt (SocrataApiTimeout.fetchCameras x) = None
           /\ forall t', settledAt (SocrataApiTimeout.fetchCameras x) = Some t' ->
                         (t <= t')%N
  end.
Proof.
  unfold SocrataApiTimeout.fetchCameras, SocrataApiTimeout.FETCH_TIMEOUT_MS.
  destruct (head x) as [[t h]|]; [|reflexivity].
  destruct (N.leb_spec 10000 t) as [Hle|Hlt].
  - apply N.ltb_ge in Hle. now rewrite Hle.
  - pose proof Hlt as Hlt'. apply N.ltb_lt in Hlt'. rewrite Hlt'.
    destruct h as [|[] st txt]; simpl.
    + split; [reflexivity|]. intros t' H; injection H as <-. lia.
    + unfold SocrataApi.readBody.
      destruct (body x) as [[d [data|]]|]; simpl;
        (split; [reflexivity|]); intros t' H; try discriminate;
        injection H as <-; lia.
    + split; [reflexivity|]. intros t' H; injection H as <-. lia.
Qed.

Lemma X9_abort_only_without_answer_witness :
  SocrataApiTimeout.fetchCameras (@Samples.silent (list TrafficCamera))
  = timedOut 10000
  /\ abortedAt (SocrataApiTimeout.fetchCameras MoreSamples.prompt) = None.
Proof.
  split.
  - exact (X9_abort_only_without_answer Samples.silent).
  - exact (proj1 (X9_abort_only_without_answer MoreSamples.prompt)).
Defined.

End NetMore.

(* ================================================================== *)
(** ** Facts about the search, the feed key and the settings of the app *)

Module AppFacts.
Import Js JsText Types MoreSpec.
Local Open Scope list_scope.

(** *** Strings *)

Lemma append_assoc (a b c : string) : ((a ++ b) ++ c = a ++ (b ++ c))%string.
Proof. induction a as [|x a IH]; simpl; [reflexivity | now rewrite IH]. Qed.

Lemma append_empty_r (a : string) : (a ++ "" = a)%string.
Proof. induction a as [|x a IH]; simpl; [reflexivity | now rewrite IH]. Qed.

Lemma prefix_spec (q s : string) :
  String.prefix q s = true <-> exists b, s = (q ++ b)%string.
Proof.
  revert s. induction q as [|x q IH]; intros s; simpl.
  - split; [intros _; now exists s | intros _; now destruct s].
  - destruct s as [|y s]; [split; [discriminate | intros [b H]; discriminate]|].
    simpl. destruct (Ascii.ascii_dec x y) as [->|Hne].
    + rewrite IH. split; intros [b H]; exists b; [now rewrite H | now injection H].
    + split; [discriminate|]. intros [b H]. injection H as H1 H2. congruence.
Qed.

Lemma includes_nil (q : string) : includes q "" = String.prefix q "".
Proof. simpl. apply orb_false_r. Qed.

Lemma includes_cons (q : string) (c : ascii) (s : string) :
  includes q (String c s) = String.prefix q (String c s) || includes q s.
Proof. reflexivity. Qed.

(** [s.includes(q)] holds exactly when [q] occurs in [s]. *)
Lemma includes_spec (q s : string) :
  includes q s = true <-> exists a b, s = (a ++ q ++ b)%string.
Proof.
  split.
  - induction s as [|c s IH].
    + rewrite includes_nil. intros H. apply prefix_spec in H as [b H].
      now exists "", b.
    + rewrite includes_cons. intros H. apply orb_true_iff in H as [H|H].
      * apply prefix_spec in H as [b H]. now exists "", b.
      * destruct (IH H) as (a & b & ->). now exists (String c a), b.
  - intros (a & b & ->). induction a as [|c a IH].
    + assert (H : String.prefix q (q ++ b) = true) by (apply prefix_spec; now exists b).
      change ("" ++ q ++ b)%string with (q ++ b)%string.
      destruct (q ++ b)%string as [|c r].
      * now rewrite includes_nil.
      * now rewrite includes_cons, H.
    + change (String c a ++ q ++ b)%string with (String c (a ++ q ++ b)).
      rewrite includes_cons, IH. apply orb_true_r.
Qed.

Lemma includes_empty (s : string) : includes "" s = true.
Proof. apply includes_spec. now exists "", s. Qed.

Lemma toLowerCase_app (a b : string) :
  toLowerCase (a ++ b) = (toLowerCase a ++ toLowerCase b)%string.
Proof. induction a as [|x a IH]; simpl; [reflexivity | now rewrite IH]. Qed.

(** *** The search *)

Lemma filteredCameras_In (cameras : list TrafficCamera) (query : string)
      (c : TrafficCamera) :
  In c (App.filteredCameras cameras query) <->
  In c cameras
  /\ truthy (url (imageurl c)) = true
  /\ exists a b, toLowerCase (cameralabel c) = (a ++ toLowerCase query ++ b)%string.
Proof.
  unfold App.filteredCameras, App.matchesQuery.
  rewrite filter_In, andb_true_iff, includes_spec. tauto.
Qed.

Lemma lowerChar_idempotent (c : ascii) : lowerChar (lowerChar c) = lowerChar c.
Proof. destruct c as [[] [] [] [] [] [] [] []]; reflexivity. Qed.

Lemma toLowerCase_idempotent (s : string) :
  toLowerCase (toLowerCase s) = toLowerCase s.
Proof.
  induction s as [|c s IH]; simpl; [reflexivity|].
  now rewrite lowerChar_idempotent, IH.
Qed.

Lemma filteredCameras_same_case (cameras : list TrafficCamera) (q q' : string) :
  toLowerCase q' = toLowerCase q ->
  App.filteredCameras cameras q' = App.filteredCameras cameras q.
Proof.
  intros H. unfold App.filteredCameras. apply filter_ext. intros c.
  unfold App.matchesQuery. now rewrite H.
Qed.

(** X10.  On labels and queries of code units below 256: the grid shows
    exactly the cameras that have a snapshot url and whose label contains
    the query, both taken in lower case ([A-Z] and the capital letters
    U+00C0 to U+00DE, the multiplication sign apart), in the order of the
    feed; two queries that differ in letter case only show the same grid,
    and so does the query put in lower case. *)
Theorem X10_search_is_case_insensitive_containment
        (cameras : list TrafficCamera) (query : string) (c : TrafficCamera) :
  (In c (App.filteredCameras cameras query) <->
   In c cameras
   /\ truthy (url (imageurl c)) = true
   /\ exists a b, toLowerCase (cameralabel c) = (a ++ toLowerCase query ++ b)%string)
  /\ (forall before after,
        App.filteredCameras (before ++ after) query
        = App.filteredCameras before query ++ App.filteredCameras after query)
  /\ (forall query',
        toLowerCase query' = toLowerCase query ->
        App.filteredCameras cameras query' = App.filteredCameras cameras query)
  /\ App.filteredCameras cameras (toLowerCase query)
     = App.filteredCameras cameras query.
Proof.
  split; [apply filteredCameras_In|]. split; [|split].
  - intros before after. unfold App.filteredCameras. apply filter_app.
  - intros query'. apply filteredCameras_same_case.
  - apply filteredCameras_same_case, toLowerCase_idempotent.
Qed.

Lemma X10_search_is_case_insensitive_containment_witness :
  In Samples.pike (App.filteredCameras [Samples.unparsable; Samples.pike] "PIKE")
  /\ In MoreSamples.accented
        (App.filteredCameras [Samples.unparsable; MoreSamples.accented]
           MoreSamples.accentedQuery)
  /\ App.filteredCameras [Samples.unparsable; Samples.pike] "pIKE"
     = App.filteredCameras [Samples.unparsable; Samples.pike] "Pike".
Proof.
  split; [|split].
  - apply (proj1 (X10_search_is_case_insensitive_containment
                    [Samples.unparsable; Samples.pike] "PIKE" Samples.pike)).
    split; [simpl; auto|]. split; [reflexivity|]. now exists "", " st".
  - apply (proj1 (X10_search_is_case_insensitive_containment
                    [Samples.unparsable; MoreSamples.accented]
                    MoreSamples.accentedQuery MoreSamples.accented)).
    split; [simpl; auto|]. split; [reflexivity|]. now exists "", "der st".
  - apply (proj1 (proj2 (proj2 (X10_search_is_case_insensitive_containment
                    [Samples.unparsable; Samples.pike] "Pike" Samples.pike)))).
    reflexivity.
Defined.

(** X11.  On labels and queries of code units below 256, where lower-casing
    works code unit by code unit: extending the query, in front or behind,
    never brings a camera into the grid that the shorter query did not
    show. *)
Theorem X11_longer_query_narrows (cameras : list TrafficCamera)
        (before query after : string) :
  incl (App.filteredCameras cameras (before ++ query ++ after))
       (App.filteredCameras cameras query).
Proof.
  intros c Hc.
  apply filteredCameras_In in Hc as (Hin & Hurl & a & b & Hlab).
  apply filteredCameras_In.
  split; [exact Hin|]. split; [exact Hurl|].
  rewrite !toLowerCase_app in Hlab.
  exists (a ++ toLowerCase before)%string, (toLowerCase after ++ b)%string.
  rewrite Hlab. now rewrite !append_assoc.
Qed.

Lemma X11_longer_query_narrows_witness :
  In Samples.pike (App.filteredCameras [Samples.unparsable; Samples.pike] "Pike St")
  /\ In Samples.pike (App.filteredCameras [Samples.unparsable; Samples.pike] "ke").
Proof.
  assert (H : In Samples.pike
                (App.filteredCameras [Samples.unparsable; Samples.pike]
                   ("Pi" ++ "ke" ++ " St"))) by (simpl; auto).
  split; [exact H|].
  exact (X11_longer_query_narrows [Samples.unparsable; Samples.pike]
           "Pi" "ke" " St" Samples.pike H).
Defined.

Lemma filter_all {A : Type} (f : A -> bool) (l : list A) :
  Forall (fun x => f x = true) l -> filter f l = l.
Proof.
  induction 1 as [|x l Hx _ IH]; simpl; [reflexivity|]. now rewrite Hx, IH.
Qed.

(** X12.  With an empty query the grid shows every camera that has a
    snapshot url; for a feed normalised from ArcGIS features that is the
    whole feed. *)
Theorem X12_empty_query_shows_the_feed :
  (forall cameras,
     App.filteredCameras cameras "" = filter ArcGISSpec.hasSnapshot cameras)
  /\ (forall features,
        App.filteredCameras (ArcGIS.camerasOf features) ""
        = ArcGIS.camerasOf features).
Proof.
  assert (H : forall cameras,
             App.filteredCameras cameras "" = filter ArcGISSpec.hasSnapshot cameras).
  { intros cameras. unfold App.filteredCameras. apply filter_ext. intros c.
    unfold App.matchesQuery. simpl. now rewrite includes_empty. }
  split; [exact H|].
  intros features. rewrite H. apply filter_all. apply ArcGISFacts.camerasOf_snapshot.
Qed.

Lemma filter_filter {A : Type} (f g : A -> bool) (l : list A) :
  filter g (filter f l) = filter (fun x => f x && g x) l.
Proof.
  induction l as [|x l IH]; simpl; [reflexivity|].
  destruct (f x); simpl; [destruct (g x); now rewrite IH | exact IH].
Qed.

Lemma hasVideoUrl_cardProps (c : TrafficCamera) :
  CameraCard.hasVideoUrl (App.cardProps c) = App.hasVideo c.
Proof.
  unfold CameraCard.hasVideoUrl, CameraCard.videoUrl, App.hasVideo. simpl.
  now destruct (video_url c).
Qed.

(** X13.  The copy of the app for the video feeds shows the cameras the
    other copy shows that also have a stream url; each of them, put into
    the copy of the card without viewport tracking, streams from the mount
    on. *)
Theorem X13_video_feeds_grid (cameras : list TrafficCamera) (query : string) :
  AppVideoFeeds.filteredCameras cameras query
  = filter App.hasVideo (App.filteredCameras cameras query)
  /\ (List.length (AppVideoFeeds.filteredCameras cameras query)
      <= App.withVideo cameras)%nat
  /\ (forall c now,
        In c (AppVideoFeeds.filteredCameras cameras query) ->
        CameraCardPlain.isVideoPlaying
          (CameraCardPlain.mount (App.cardProps c) now) = true).
Proof.
  assert (E : AppVideoFeeds.filteredCameras cameras query
              = filter App.hasVideo (App.filteredCameras cameras query)).
  { unfold AppVideoFeeds.filteredCameras, App.filteredCameras.
    rewrite filter_filter. reflexivity. }
  split; [exact E|]. split.
  - clear E. unfold AppVideoFeeds.filteredCameras, App.withVideo.
    induction cameras as [|c cameras IH]; simpl; [lia|].
    unfold AppVideoFeeds.matchesQuery at 1.
    destruct (App.hasVideo c); simpl.
    + rewrite andb_true_r.
      destruct (_ && _); simpl; lia.
    + rewrite andb_false_r. exact IH.
  - intros c now Hc. rewrite E in Hc. apply filter_In in Hc as [_ Hv].
    change (CameraCard.hasVideoUrl (App.cardProps c) = true).
    now rewrite hasVideoUrl_cardProps.
Qed.

Lemma X13_video_feeds_grid_witness :
  In Samples.streamable
     (AppVideoFeeds.filteredCameras [Samples.pike; Samples.streamable] "pike")
  /\ CameraCardPlain.isVideoPlaying
       (CameraCardPlain.mount (App.cardProps Samples.streamable) 1000) = true.
Proof.
  assert (H : In Samples.streamable
                (AppVideoFeeds.filteredCameras [Samples.pike; Samples.streamable] "pike"))
    by (simpl; auto).
  split; [exact H|].
  exact (proj2 (proj2 (X13_video_feeds_grid [Samples.pike; Samples.streamable] "pike"))
           Samples.streamable 1000%N H).
Defined.

(** *** The feed key *)

(** X14.  Two states of the app have the same cache key only if they have
    the same source and the same ArcGIS url: feeds of distinct sources or
    endpoints never share a cache entry (and the key of the Socrata feed
    changes with the ArcGIS url, which its fetcher does not use). *)
Theorem X14_feed_key_is_injective (s1 s2 : App.State)
  (Hkey : App.swrKey s1 = App.swrKey s2) :
  App.source s1 = App.source s2 /\ App.arcgisUrl s1 = App.arcgisUrl s2.
Proof.
  unfold App.swrKey in Hkey.
  destruct (App.source s1), (App.source s2); simpl in Hkey;
    try discriminate; injection Hkey as Hurl; auto.
Qed.

Lemma X14_feed_key_is_injective_witness :
  App.swrKey App.initial = App.swrKey (App.handle (App.EditSearch "pike") App.initial)
  /\ App.source (App.handle (App.EditSearch "pike") App.initial) = App.sdot.
Proof.
  split; [reflexivity|].
  symmetry.
  exact (proj1 (X14_feed_key_is_injective App.initial
                  (App.handle (App.EditSearch "pike") App.initial) eq_refl)).
Defined.

(** *** White space around the pasted url *)

Lemma trimStart_white (w u : string) :
  allWhite w -> trimStart (w ++ u) = trimStart u.
Proof.
  unfold allWhite. induction w as [|c w IH]; simpl; intros H; [reflexivity|].
  inversion H as [|? ? Hc Hw]; subst. rewrite Hc. now apply IH.
Qed.

Lemma trimEnd_all_white (w : string) : allWhite w -> trimEnd w = "".
Proof.
  unfold allWhite. induction w as [|c w IH]; simpl; intros H; [reflexivity|].
  inversion H as [|? ? Hc Hw]; subst. now rewrite (IH Hw), Hc.
Qed.

Lemma trimEnd_white (u w : string) :
  allWhite w -> trimEnd (u ++ w) = trimEnd u.
Proof.
  intros Hw. induction u as [|c u IH]; simpl.
  - now apply trimEnd_all_white.
  - now rewrite IH.
Qed.

Lemma trim_white (w1 u w2 : string) :
  allWhite w1 -> allWhite w2 -> trim (w1 ++ u ++ w2) = trim u.
Proof.
  intros H1 H2. unfold trim. rewrite (trimStart_white _ _ H1). clear H1.
  induction u as [|c u IH]; simpl.
  - rewrite <- (append_empty_r w2), (trimStart_white _ _ H2). reflexivity.
  - destruct (isWhiteSpace c) eqn:Ec; [exact IH|].
    change (String c (u ++ w2)) with (String c u ++ w2)%string.
    now apply trimEnd_white.
Qed.

Lemma trimStart_idempotent (u : string) : trimStart (trimStart u) = trimStart u.
Proof.
  induction u as [|c u IH]; simpl; [reflexivity|].
  destruct (isWhiteSpace c) eqn:Ec; [exact IH|]. simpl. now rewrite Ec.
Qed.

(** X15.  Only the two feed buttons change the cache key: choosing the
    Socrata feed, or applying the url field, which selects ArcGIS with the
    trimmed text; changing the view, the settings panel, the url field or
    the search leaves the key as it is.  White space around the pasted url
    (on code units below 256: TAB, LF, VT, FF, CR, space and no-break space)
    does not matter to the key. *)
Theorem X15_feed_key_changes (s : App.State) :
  (forall e, picksFeed e = false -> App.swrKey (App.handle e s) = App.swrKey s)
  /\ App.swrKey (App.handle App.ChooseSdot s)
     = ("cameras-sdot-" ++ App.arcgisUrl s)%string
  /\ App.swrKey (App.handle App.ApplyArcGISUrl s)
     = ("cameras-arcgis-" ++ trim (App.pendingUrl s))%string
  /\ (forall w1 u w2, allWhite w1 -> allWhite w2 ->
        App.swrKey (App.handle App.ApplyArcGISUrl
                      (App.handle (App.EditPendingUrl (w1 ++ u ++ w2)) s))
        = App.swrKey (App.handle App.ApplyArcGISUrl
                        (App.handle (App.EditPendingUrl u) s))).
Proof.
  split; [intros [] H; try discriminate H; reflexivity|].
  split; [reflexivity|]. split; [reflexivity|].
  intros w1 u w2 H1 H2. unfold App.swrKey. simpl. now rewrite (trim_white _ _ _ H1 H2).
Qed.

Lemma X15_feed_key_changes_witness :
  App.swrKey (App.handle App.ApplyArcGISUrl
                (App.handle
                   (App.EditPendingUrl
                      (MoreSamples.nbspThenSpace ++ "http://x/FeatureServer/0" ++ " "))
                   App.initial))
  = "cameras-arcgis-http://x/FeatureServer/0".
Proof.
  rewrite (proj2 (proj2 (proj2 (X15_feed_key_changes App.initial)))
             MoreSamples.nbspThenSpace "http://x/FeatureServer/0" " ").
  - reflexivity.
  - repeat constructor.
  - repeat constructor.
Defined.

End AppFacts.

(* ================================================================== *)
(** ** Further facts about the camera card *)

Module CameraCardMore.
Import Js Types CameraCardSpec MoreSpec.
Local Open Scope list_scope.

Ltac card_cases :=
  repeat match goal with
         | |- context [match ?x with _ => _ end] => destruct x eqn:?; simpl
         end.


Lemma player_mounted_when_playing (p : CameraCard.Props) (s : CameraCard.State) :
  CameraCard.reachable p s ->
  CameraCard.playerMounted p s = CameraCard.isVideoPlaying s.
Proof.
  intros Hreach.
  pose proof (CameraCardFacts.reachable_settled p s Hreach) as [_ Hview].
  pose proof (CameraCardFacts.reachable_playing_has_url p s Hreach) as Hurl.
  unfold CameraCard.playerMounted.
  destruct (CameraCard.isVideoPlaying s); [|reflexivity].
  now rewrite Hview, Hurl.
Qed.


Lemma playing_reachable :
  CameraCard.reachable Samples.withStream
    (CameraCard.mkState true 1000 true false true None).
Proof.
  exists 1000%N, [CameraCard.Intersect true; CameraCard.PlayClicked]. reflexivity.
Qed.


(** X18.  A failure reported by the player while the card streams puts the
    card back on the still image: the stream is off, the image is marked as
    loading, the refresh timer is armed, and the play button is offered
    again.  While the card does not stream, no such report is taken. *)
Theorem X18_player_error_falls_back (p : CameraCard.Props) (s : CameraCard.State)
  (Hreach : CameraCard.reachable p s) :
  if streaming s
  then exists s',
         CameraCard.step p s CameraCard.PlayerError = Some s'
         /\ streaming s' = false
         /\ CameraCard.isImgLoading s' = true
         /\ CameraCard.interval s' = Some (CameraCard.refreshIntervalOf p)
         /\ CameraCard.playButton (CameraCard.render p s') = true
         /\ CameraCard.timestamp s' = CameraCard.timestamp s
  else CameraCard.step p s CameraCard.PlayerError = None.
Proof.
  pose proof (player_mounted_when_playing p s Hreach) as Hmount.
  pose proof (CameraCardFacts.reachable_playing_has_url p s Hreach) as Hurl.
  unfold streaming. destruct s as [iv ts il ie pl it]. simpl in Hurl. simpl.
  destruct pl.
  - eexists. unfold CameraCard.step, CameraCard.enabled. simpl. rewrite Hmount.
    split; [reflexivity|].
    destruct iv; simpl; rewrite Hurl by reflexivity; repeat split.
  - unfold CameraCard.step, CameraCard.enabled, CameraCard.render,
      CameraCard.playerMounted. simpl. now destruct ie.
Qed.

Lemma X18_player_error_falls_back_witness :
  exists s',
    CameraCard.step Samples.withStream
      (CameraCard.mkState true 1000 true false true None) CameraCard.PlayerError
    = Some s'
    /\ streaming s' = false.
Proof.
  destruct (X18_player_error_falls_back Samples.withStream _ playing_reachable)
    as (s' & Hstep & Hidle & _).
  exists s'. split; assumption.
Defined.

Lemma step_keeps_image_error (p : CameraCard.Props) (s s' : CameraCard.State)
      (e : CameraCard.Event) :
  CameraCard.hasImgError s = true ->
  CameraCard.step p s e = Some s' ->
  CameraCard.hasImgError s' = true.
Proof.
  destruct s as [iv ts il ie pl it]. simpl. intros ->.
  unfold CameraCard.step, CameraCard.enabled, CameraCard.render,
    CameraCard.playerMounted. simpl.
  destruct (CameraCard.hasVideoUrl p), iv, pl, it;
    destruct e as [[]| | | | | | |]; simpl;
    try discriminate; intros H; injection H as <-; reflexivity.
Qed.

(** X19.  Once the snapshot has failed to load, components/CameraCard.tsx
    stays on [Signal Lost]: no sequence of events clears [hasImgError], the
    image element is not rendered again, and so its [load] event can never
    come. *)
Theorem X19_signal_lost_is_permanent (p : CameraCard.Props)
        (events : list CameraCard.Event) (s s' : CameraCard.State)
  (Hlost : CameraCard.hasImgError s = true)
  (Hrun : CameraCard.run p s events = Some s') :
  CameraCard.hasImgError s' = true
  /\ (forall src, CameraCard.media (CameraCard.render p s') <> CameraCard.Img src)
  /\ CameraCard.step p s' CameraCard.ImgLoad = None.
Proof.
  assert (H : CameraCard.hasImgError s' = true).
  { exact (CameraCardFacts.run_preserves p
             (fun s => CameraCard.hasImgError s = true)
             (fun s0 e s1 => step_keeps_image_error p s0 s1 e)
             events s s' Hlost Hrun). }
  split; [exact H|].
  unfold CameraCard.step, CameraCard.enabled, CameraCard.render. simpl. rewrite H.
  split; [intros src|]; now destruct (CameraCard.playerMounted p s').
Qed.

Lemma X19_signal_lost_is_permanent_witness :
  CameraCard.run Samples.withoutStream
    (CameraCard.mkState true 1000 false true false (Some 30000%N))
    [CameraCard.IntervalFired 31000; CameraCard.Intersect false;
     CameraCard.IntervalFired 61000]
  = Some (CameraCard.mkState false 61000 true true false (Some 30000%N))
  /\ CameraCard.step Samples.withoutStream
       (CameraCard.mkState false 61000 true true false (Some 30000%N))
       CameraCard.ImgLoad = None.
Proof.
  split; [reflexivity|].
  apply (X19_signal_lost_is_permanent Samples.withoutStream
           [CameraCard.IntervalFired 31000; CameraCard.Intersect false;
            CameraCard.IntervalFired 61000]
           (CameraCard.mkState true 1000 false true false (Some 30000%N)));
    reflexivity.
Defined.

(** X20.  In the copy of the card without viewport tracking a camera with a
    stream url leaves [Signal Lost]: a click on the play button mounts the
    player, and the player's load report clears the error. *)
Theorem X20_plain_card_recovers_by_playing (p : CameraCardPlain.Props)
        (s : CameraCardPlain.State)
  (Hurl : CameraCardPlain.hasVideoUrl p = true)
  (Hlost : CameraCardPlain.hasError s = true)
  (Hidle : CameraCardPlain.isVideoPlaying s = false) :
  CameraCardPlain.media (CameraCardPlain.render p s) = CameraCard.SignalLost
  /\ exists s',
       CameraCardPlain.run p s [CameraCardPlain.PlayClicked; CameraCardPlain.PlayerLoad]
       = Some s'
       /\ CameraCardPlain.hasError s' = false
       /\ CameraCardPlain.isVideoPlaying s' = true.
Proof.
  destruct s as [ts il ie pl it]. simpl in *. subst ie pl.
  unfold CameraCardPlain.hasVideoUrl in Hurl.
  split; [reflexivity|].
  unfold CameraCardPlain.run, CameraCardPlain.step, CameraCardPlain.enabled,
    CameraCardPlain.render, CameraCardPlain.hasVideoUrl. simpl.
  rewrite !Hurl. simpl.
  eexists. split; [reflexivity|]. split; reflexivity.
Qed.

Lemma X20_plain_card_recovers_by_playing_witness :
  exists s',
    CameraCardPlain.run Samples.withStream
      (CameraCardPlain.mkState 1000 false true false (Some 30000%N))
      [CameraCardPlain.PlayClicked; CameraCardPlain.PlayerLoad] = Some s'
    /\ CameraCardPlain.hasError s' = false.
Proof.
  destruct (X20_plain_card_recovers_by_playing Samples.withStream
              (CameraCardPlain.mkState 1000 false true false (Some 30000%N))
              eq_refl eq_refl eq_refl) as (_ & s' & Hrun & Hclear & _).
  exists s'. split; assumption.
Defined.

(** X21.  The url of the snapshot (and of the poster) changes only when the
    refresh timer fires, and the timer does not fire while the card streams:
    every other event leaves the timestamp as it is. *)
Theorem X21_timestamp_moves_on_tick_only (p : CameraCard.Props)
        (s s' : CameraCard.State) (e : CameraCard.Event)
  (Hreach : CameraCard.reachable p s)
  (Hstep : CameraCard.step p s e = Some s')
  (Hmoved : CameraCard.timestamp s' <> CameraCard.timestamp s) :
  streaming s = false
  /\ e = CameraCard.IntervalFired (CameraCard.timestamp s')
  /\ CameraCard.imageUrl p s' = bustedUrl p (CameraCard.timestamp s').
Proof.
  pose proof (CameraCardFacts.reachable_settled p s Hreach) as [Hint _].
  clear Hreach. destruct s as [iv ts il ie pl it]. simpl in *. subst it.
  unfold streaming. revert Hstep Hmoved.
  unfold CameraCard.step, CameraCard.enabled, CameraCard.render,
    CameraCard.playerMounted. simpl.
  destruct (CameraCard.hasVideoUrl p), iv, pl, ie;
    destruct e as [[]|now| | | | | |]; simpl; try discriminate;
    intros H Hm; injection H as <-; simpl in *;
    try (exfalso; apply Hm; reflexivity); repeat split.
Qed.

Lemma X21_timestamp_moves_on_tick_only_witness :
  CameraCard.step Samples.withoutStream (CameraCard.mount Samples.withoutStream 1000)
    (CameraCard.IntervalFired 31000)
  = Some (CameraCard.mkState false 31000 true false false (Some 30000%N))
  /\ CameraCard.imageUrl Samples.withoutStream
       (CameraCard.mkState false 31000 true false false (Some 30000%N))
     = "http://x/img.jpg?t=31000".
Proof.
  split; [reflexivity|].
  refine (proj2 (proj2 (X21_timestamp_moves_on_tick_only Samples.withoutStream
                          (CameraCard.mount Samples.withoutStream 1000) _
                          (CameraCard.IntervalFired 31000) _ eq_refl _))).
  - exists 1000%N, []. reflexivity.
  - discriminate.
Defined.

(** X22.  In the copy of the card without viewport tracking a stream stops
    only when the player reports a failure: no other event of the card ends
    it (there is no stop button and no pause out of the viewport). *)
Theorem X22_plain_stream_ends_on_error_only (p : CameraCardPlain.Props)
        (s s' : CameraCardPlain.State) (e : CameraCardPlain.Event)
  (Hplay : CameraCardPlain.isVideoPlaying s = true)
  (Hstep : CameraCardPlain.step p s e = Some s')
  (Hstop : CameraCardPlain.isVideoPlaying s' = false) :
  e = CameraCardPlain.PlayerError.
Proof.
  destruct s as [ts il ie pl it]. simpl in Hplay. subst pl.
  revert Hstep. unfold CameraCardPlain.step, CameraCardPlain.enabled. simpl.
  destruct e; simpl; card_cases; try discriminate;
    intros H; injection H as <-; simpl in Hstop; try discriminate; reflexivity.
Qed.

Lemma X22_plain_stream_ends_on_error_only_witness :
  CameraCardPlain.step Samples.withStream
    (CameraCardPlain.mount Samples.withStream 1000) CameraCardPlain.PlayerError
  = Some (CameraCardPlain.mkState 1000 true false false (Some 30000%N))
  /\ CameraCardPlain.PlayerError = CameraCardPlain.PlayerError.
Proof.
  split; [reflexivity|].
  apply (X22_plain_stream_ends_on_error_only Samples.withStream
           (CameraCardPlain.mount Samples.withStream 1000)
           (CameraCardPlain.mkState 1000 true false false (Some 30000%N)));
    reflexivity.
Defined.

Lemma filter_empty_all {A : Type} (f : A -> bool) (l : list A) :
  List.length (filter f l) = 0%nat -> forall x, In x l -> f x = false.
Proof.
  induction l as [|y l IH]; simpl; [contradiction|].
  destruct (f y) eqn:E; simpl; [discriminate|].
  intros H x [<-|Hx]; [exact E | now apply IH].
Qed.

(** X23.  When the app counts no camera with video (the badge is not
    shown), no card of the grid ever streams or offers the play button,
    whatever happens to it. *)
Theorem X23_no_video_badge_no_stream (cameras : list TrafficCamera)
  (Hnone : App.withVideo cameras = 0%nat) :
  forall c s, In c cameras -> CameraCard.reachable (App.cardProps c) s ->
    streaming s = false
    /\ CameraCard.playButton (CameraCard.render (App.cardProps c) s) = false.
Proof.
  intros c s Hc Hreach.
  pose proof (filter_empty_all _ _ Hnone c Hc) as Hv.
  rewrite <- AppFacts.hasVideoUrl_cardProps in Hv.
  assert (Hidle : CameraCard.isVideoPlaying s = false).
  { destruct (CameraCard.isVideoPlaying s) eqn:E; [|reflexivity].
    rewrite (CameraCardFacts.reachable_playing_has_url _ s Hreach E) in Hv.
    discriminate. }
  split; [exact Hidle|]. simpl. now rewrite Hv.
Qed.

Lemma X23_no_video_badge_no_stream_witness :
  App.withVideo [Samples.pike; Samples.unparsable] = 0%nat
  /\ streaming (CameraCard.mount (App.cardProps Samples.pike) 1000) = false.
Proof.
  split; [reflexivity|].
  apply (X23_no_video_badge_no_stream [Samples.pike; Samples.unparsable] eq_refl
           Samples.pike).
  - simpl; auto.
  - exists 1000%N, []. reflexivity.
Defined.

End CameraCardMore.

(* ================================================================== *)
(** ** Facts about the video player *)

Module VideoPlayerFacts.
Import Js JsText MoreSpec VideoPlayer.
Local Open Scope list_scope.

(** X24.  The player gives up on a url at once only when the url contains
    [.m3u8] and the browser has neither hls.js support nor native HLS; a url
    without [.m3u8] is always handed to the video element.  When it gives up
    it reports the failure once, at mount, shows the error overlay, and takes
    no event afterwards. *)
Theorem X24_engine_choice (b : Browser) (p : Props) :
  (engineFor b p = Unsupported <->
   isM3u8 p = true /\ hlsSupported b = false /\ canPlayHls b = false)
  /\ (engineFor b p = HlsJs <-> hlsSupported b = true /\ isM3u8 p = true)
  /\ (isM3u8 p = false -> engineFor b p = Native)
  /\ (engineFor b p = Unsupported ->
      mount b p = (mkState false true Unsupported false, [CallOnError])
      /\ overlay (fst (mount b p)) = StreamUnavailable
      /\ forall e, step p (fst (mount b p)) e = None).
Proof.
  unfold mount, engineFor.
  destruct (hlsSupported b), (canPlayHls b), (isM3u8 p); simpl;
    repeat split; try discriminate; try tauto; try reflexivity;
    try (intros (? & ? & ?); discriminate);
    try (intros (? & ?); discriminate);
    try (intros []; reflexivity).
Qed.

Lemma X24_engine_choice_witness :
  isM3u8 MoreSamples.clip = false
  /\ engineFor MoreSamples.oldBrowser MoreSamples.clip = Native
  /\ engineFor MoreSamples.oldBrowser MoreSamples.liveStream = Unsupported.
Proof.
  split; [reflexivity|]. split.
  - apply (X24_engine_choice MoreSamples.oldBrowser MoreSamples.clip). reflexivity.
  - apply (proj1 (X24_engine_choice MoreSamples.oldBrowser MoreSamples.liveStream)).
    repeat split.
Defined.

Lemma onErrorCalls_app (a b : list Action) :
  onErrorCalls (a ++ b) = (onErrorCalls a + onErrorCalls b)%nat.
Proof. unfold onErrorCalls. now rewrite filter_app, length_app. Qed.

Lemma handled_step (p : Props) (s : State) (e : Event) :
  engine s = HlsJs -> hlsAlive s = true -> handledInside e = true ->
  exists s1 acts1,
    step p s e = Some (s1, acts1)
    /\ engine s1 = HlsJs /\ hlsAlive s1 = true /\ hasError s1 = hasError s
    /\ onErrorCalls acts1 = 0%nat
    /\ List.length (filter isStartLoad acts1)
       = (if isFatalNetwork e then 1 else 0)%nat.
Proof.
  destruct s as [il he en al]. simpl. intros -> -> He.
  unfold step, enabled. simpl.
  destruct e as [|[] []| |]; try discriminate He; simpl;
    try (do 2 eexists; split; [reflexivity|]; repeat split; fail).
  - do 2 eexists. split; [reflexivity|]. simpl.
    destruct (autoPlayOf p); repeat split.
Qed.

(** X25.  With hls.js, the manifest, errors that are not fatal and fatal
    network or media errors are answered inside the player, however many of
    them come: the failure is never reported, the error overlay never
    appears, the session stays alive, and every fatal network error is
    answered by one more [startLoad()]; there is no bound on the retries. *)
Theorem X25_recovery_is_never_given_up (p : Props) (events : list Event) (s : State)
  (Hengine : engine s = HlsJs)
  (Halive : hlsAlive s = true)
  (Hevents : forallb handledInside events = true) :
  exists s' acts,
    run p s events = Some (s', acts)
    /\ hasError s' = hasError s
    /\ hlsAlive s' = true
    /\ onErrorCalls acts = 0%nat
    /\ List.length (filter isStartLoad acts)
       = List.length (filter isFatalNetwork events).
Proof.
  revert s Hengine Halive. induction events as [|e events IH]; intros s Hengine Halive.
  - exists s, []. repeat split. exact Halive.
  - simpl in Hevents. apply andb_true_iff in Hevents as [He Hrest].
    destruct (handled_step p s e Hengine Halive He)
      as (s1 & acts1 & Hstep & Hen1 & Hal1 & Herr1 & Hcalls1 & Hloads1).
    destruct (IH Hrest s1 Hen1 Hal1) as (s' & acts2 & Hrun & Herr & Hal & Hcalls & Hloads).
    exists s', (acts1 ++ acts2). simpl. rewrite Hstep, Hrun.
    split; [reflexivity|]. split; [congruence|]. split; [exact Hal|]. split.
    + now rewrite onErrorCalls_app, Hcalls1, Hcalls.
    + rewrite filter_app, length_app, Hloads1, Hloads.
      now destruct (isFatalNetwork e).
Qed.

Lemma X25_recovery_is_never_given_up_witness :
  exists s' acts,
    run MoreSamples.liveStream
        (fst (mount MoreSamples.hlsBrowser MoreSamples.liveStream))
        [HlsError true NETWORK_ERROR; HlsError true NETWORK_ERROR;
         HlsError true MEDIA_ERROR; ManifestParsed; HlsError true NETWORK_ERROR]
    = Some (s', acts)
    /\ hasError s' = false
    /\ List.length (filter isStartLoad acts) = 3%nat.
Proof.
  destruct (X25_recovery_is_never_given_up MoreSamples.liveStream
              [HlsError true NETWORK_ERROR; HlsError true NETWORK_ERROR;
               HlsError true MEDIA_ERROR; ManifestParsed; HlsError true NETWORK_ERROR]
              (fst (mount MoreSamples.hlsBrowser MoreSamples.liveStream))
              eq_refl eq_refl eq_refl)
    as (s' & acts & Hrun & Herr & _ & _ & Hloads).
  exists s', acts. split; [exact Hrun|]. split; [exact Herr | exact Hloads].
Defined.

Lemma dead_session_takes_nothing (p : Props) (s s' : State)
      (events : list Event) (acts : list Action) :
  engine s = HlsJs -> hlsAlive s = false ->
  run p s events = Some (s', acts) ->
  events = [] /\ s' = s /\ acts = [].
Proof.
  intros Hen Hal. destruct events as [|e events]; simpl.
  - intros H; injection H as <- <-. auto.
  - unfold step, enabled. rewrite Hen, Hal. now destruct e.
Qed.

Lemma hls_step_cases (p : Props) (s s1 : State) (e : Event) (acts1 : list Action) :
  engine s = HlsJs ->
  step p s e = Some (s1, acts1) ->
  engine s1 = HlsJs
  /\ ((hlsAlive s1 = true /\ onErrorCalls acts1 = 0%nat)
      \/ (hlsAlive s1 = false /\ hasError s1 = true
          /\ acts1 = [CallOnError; DestroyHls])).
Proof.
  destruct s as [il he en al]. simpl. intros ->.
  unfold step, enabled. simpl.
  destruct al; [|now destruct e].
  destruct e as [|[] []| |]; simpl; try discriminate;
    intros H; injection H as <- <-; simpl; split; try reflexivity;
    try solve [left; split; reflexivity]; try solve [right; repeat split].
  left. split; [reflexivity|]. now destruct (autoPlayOf p).
Qed.

(** X26.  With hls.js the failure is reported at most once per session: the
    report comes with the destruction of the session, after which the error
    overlay is shown and no event is taken any more. *)
Theorem X26_hls_failure_is_reported_once (p : Props) (events : list Event)
        (s s' : State) (acts : list Action)
  (Hengine : engine s = HlsJs)
  (Hrun : run p s events = Some (s', acts)) :
  (onErrorCalls acts <= 1)%nat
  /\ (onErrorCalls acts = 1%nat ->
      hlsAlive s' = false
      /\ overlay s' = StreamUnavailable
      /\ In DestroyHls acts
      /\ forall e, step p s' e = None).
Proof.
  revert s acts Hengine Hrun.
  induction events as [|e events IH]; intros s acts Hengine Hrun; simpl in Hrun.
  - injection Hrun as <- <-. split; [auto|]. discriminate.
  - destruct (step p s e) as [[s1 acts1]|] eqn:Hstep; [|discriminate].
    destruct (run p s1 events) as [[s2 acts2]|] eqn:Hrest; [|discriminate].
    injection Hrun as <- <-.
    destruct (hls_step_cases p s s1 e acts1 Hengine Hstep)
      as [Hen1 [[Hal1 Hcalls1]|(Hal1 & Herr1 & ->)]].
    + rewrite onErrorCalls_app, Hcalls1. simpl.
      destruct (IH s1 acts2 Hen1 Hrest) as [Hle Hone]. split; [exact Hle|].
      intros H. destruct (Hone H) as (Ha & Hb & Hc & Hd).
      repeat split; auto. apply in_or_app. now right.
    + destruct (dead_session_takes_nothing p s1 s2 events acts2 Hen1 Hal1 Hrest)
        as (_ & -> & ->).
      split; [simpl; auto|]. intros _.
      split; [exact Hal1|]. split; [unfold overlay; now rewrite Herr1|].
      split; [simpl; auto|].
      intros e'. unfold step, enabled. rewrite Hen1, Hal1. now destruct e'.
Qed.

Lemma X26_hls_failure_is_reported_once_witness :
  run MoreSamples.liveStream
      (fst (mount MoreSamples.hlsBrowser MoreSamples.liveStream))
      [ManifestParsed; HlsError true NETWORK_ERROR; HlsError true OTHER_ERROR]
  = Some (mkState false true HlsJs false,
          [CallOnLoad; Play; StartLoad; CallOnError; DestroyHls])
  /\ (onErrorCalls [CallOnLoad; Play; StartLoad; CallOnError; DestroyHls] <= 1)%nat.
Proof.
  split; [reflexivity|].
  apply (X26_hls_failure_is_reported_once MoreSamples.liveStream
           [ManifestParsed; HlsError true NETWORK_ERROR; HlsError true OTHER_ERROR]
           (fst (mount MoreSamples.hlsBrowser MoreSamples.liveStream))
           (mkState false true HlsJs false)); reflexivity.
Defined.

Lemma step_error_sticks (p : Props) (s s1 : State) (e : Event) (acts1 : list Action) :
  step p s e = Some (s1, acts1) ->
  (hasError s = true -> hasError s1 = true)
  /\ (0 < onErrorCalls acts1 -> hasError s1 = true)%nat.
Proof.
  destruct s as [il he en al]. unfold step, enabled. simpl.
  destruct en, al; destruct e as [|[] []| |]; simpl; try discriminate;
    intros H; injection H as <- <-; simpl; split; auto;
    try (intros H; now apply Nat.lt_irrefl in H);
    destruct (autoPlayOf p); simpl; intros H; now apply Nat.lt_irrefl in H.
Qed.

(** X27.  With either engine, the error overlay never goes away during a
    session, and it is shown whenever the failure has been reported: after
    any sequence of events in which [onError] was called, [hasError] holds
    and the player shows [Stream Unavailable]. *)
Theorem X27_reported_failure_is_shown (p : Props) (events : list Event)
        (s s' : State) (acts : list Action)
  (Hrun : run p s events = Some (s', acts)) :
  (hasError s = true -> overlay s' = StreamUnavailable)
  /\ (0 < onErrorCalls acts -> overlay s' = StreamUnavailable)%nat.
Proof.
  assert (H : (hasError s = true -> hasError s' = true)
              /\ (0 < onErrorCalls acts -> hasError s' = true)%nat).
  { revert s acts Hrun.
    induction events as [|e events IH]; intros s acts Hrun; simpl in Hrun.
    - injection Hrun as <- <-. split; [auto|]. intros H. now apply Nat.lt_irrefl in H.
    - destruct (step p s e) as [[s1 acts1]|] eqn:Hstep; [|discriminate].
      destruct (run p s1 events) as [[s2 acts2]|] eqn:Hrest; [|discriminate].
      injection Hrun as <- <-.
      destruct (step_error_sticks p s s1 e acts1 Hstep) as [Hkeep Hset].
      destruct (IH s1 acts2 Hrest) as [Hkeep' Hset'].
      split; [auto|]. rewrite onErrorCalls_app. intros H.
      destruct (onErrorCalls acts1) eqn:E1; [apply Hset'; simpl in H; exact H|].
      apply Hkeep', Hset. apply Nat.lt_0_succ. }
  destruct H as [H1 H2]. unfold overlay.
  split; intros H; [rewrite (H1 H) | rewrite (H2 H)]; reflexivity.
Qed.

Lemma X27_reported_failure_is_shown_witness :
  run MoreSamples.clip (fst (mount MoreSamples.oldBrowser MoreSamples.clip))
      [ElementError; LoadedMetadata]
  = Some (mkState false true Native false, [CallOnError; CallOnLoad; Play])
  /\ overlay (mkState false true Native false) = StreamUnavailable.
Proof.
  split; [reflexivity|].
  apply (X27_reported_failure_is_shown MoreSamples.clip [ElementError; LoadedMetadata]
           (fst (mount MoreSamples.oldBrowser MoreSamples.clip))
           (mkState false true Native false)
           [CallOnError; CallOnLoad; Play] eq_refl).
  simpl. apply Nat.lt_0_succ.
Defined.

End VideoPlayerFacts.
